(** * MCBS (Minecraft Bot Script), src/mcbs.js: a shallow embedding

    The bot is a set of cooperating classes (MinecraftBot, Inventory, World,
    EntityTracker, Physics, Crafting, Combat) sharing one mutable bot object.
    We model the bot object as a record of the per-class states, every handler
    and method as a function on that record, and the two outward effects as
    logs kept in the record: the packets written with [client.write] and the
    signals emitted with [bot.emit].

    JavaScript numbers are modelled by [number]: a rational value, NaN or an
    infinity; arithmetic is exact (rounding of doubles is not modelled). The
    transcendental functions and the number-to-string conversion are left
    abstract in the class [JsMath]; every theorem holds for any choice. *)

From Stdlib Require Import ZArith QArith Ascii String List Bool Lia DecimalString DecimalZ.
Import ListNotations.

Open Scope Z_scope.

(** ** JavaScript numbers *)

Inductive number : Type :=
| Num (q : Q)
| NaN
| Infinity (positive : bool).

Definition Qlt_bool (a b : Q) : bool := negb (Qle_bool b a).

Definition num_add (a b : number) : number :=
  match a, b with
  | Num x, Num y => Num (x + y)%Q
  | Infinity s, Num _ | Num _, Infinity s => Infinity s
  | Infinity s, Infinity s' => if Bool.eqb s s' then Infinity s else NaN
  | _, _ => NaN
  end.

Definition num_neg (a : number) : number :=
  match a with
  | Num x => Num (- x)%Q
  | NaN => NaN
  | Infinity s => Infinity (negb s)
  end.

Definition num_sub (a b : number) : number := num_add a (num_neg b).

Definition num_mul (a b : number) : number :=
  match a, b with
  | Num x, Num y => Num (x * y)%Q
  | Num x, Infinity s | Infinity s, Num x =>
      if Qeq_bool x 0 then NaN
      else Infinity (if Qlt_bool x 0 then negb s else s)
  | Infinity s, Infinity s' => Infinity (Bool.eqb s s')
  | _, _ => NaN
  end.

(** [a < b]; every comparison with NaN is false. *)
Definition num_lt (a b : number) : bool :=
  match a, b with
  | Num x, Num y => Qlt_bool x y
  | Num _, Infinity s => s
  | Infinity s, Num _ => negb s
  | Infinity s, Infinity s' => negb s && s'
  | _, _ => false
  end.

Definition num_gt (a b : number) : bool := num_lt b a.

(** [a === b] on numbers. *)
Definition num_eq (a b : number) : bool :=
  match a, b with
  | Num x, Num y => Qeq_bool x y
  | Infinity s, Infinity s' => Bool.eqb s s'
  | _, _ => false
  end.

Definition Znum (z : Z) : number := Num (inject_Z z).

(** The Math functions and [String(n)] (used by template literals). *)
Class JsMath : Type := {
  Math_sin : Q -> number;
  Math_cos : Q -> number;
  Math_atan2 : Q -> Q -> number;
  Math_sqrt : Q -> number;
  Number_toString : Q -> string
}.

Section JsMathLift.
Context `{JsMath}.

Definition js_sin (a : number) : number :=
  match a with Num x => Math_sin x | _ => NaN end.
Definition js_cos (a : number) : number :=
  match a with Num x => Math_cos x | _ => NaN end.
Definition js_atan2 (a b : number) : number :=
  match a, b with Num x, Num y => Math_atan2 x y | _, _ => NaN end.
Definition js_sqrt (a : number) : number :=
  match a with
  | Num x => Math_sqrt x
  | Infinity true => Infinity true
  | _ => NaN
  end.
Definition js_string (a : number) : string :=
  match a with
  | Num x => Number_toString x
  | NaN => "NaN"
  | Infinity true => "Infinity"
  | Infinity false => "-Infinity"
  end.
End JsMathLift.

(** ** The vec3 library *)

Record Vec3 : Type := vec3 { vx : number; vy : number; vz : number }.

(** [v.offset(dx, dy, dz)]: a new vector. *)
Definition offset (v : Vec3) (dx dy dz : number) : Vec3 :=
  vec3 (num_add (vx v) dx) (num_add (vy v) dy) (num_add (vz v) dz).

(** [v.minus(o)]: a new vector. *)
Definition minus (v o : Vec3) : Vec3 :=
  offset v (num_neg (vx o)) (num_neg (vy o)) (num_neg (vz o)).

(** [v.add(other)] adds [other.x], [other.y], [other.z] to [v] in place.
    Its argument is a vector; a plain number has no [x] property, so
    [v.add(n1, n2, n3)] adds [undefined] (NaN) to every coordinate. *)
Inductive AddArg : Type :=
| ArgVec (o : Vec3)
| ArgNumbers (n1 n2 n3 : number).

Definition add (v : Vec3) (a : AddArg) : Vec3 :=
  match a with
  | ArgVec o => vec3 (num_add (vx v) (vx o)) (num_add (vy v) (vy o)) (num_add (vz v) (vz o))
  | ArgNumbers _ _ _ => vec3 (num_add (vx v) NaN) (num_add (vy v) NaN) (num_add (vz v) NaN)
  end.

Definition distanceTo `{JsMath} (v o : Vec3) : number :=
  let dx := num_sub (vx o) (vx v) in
  let dy := num_sub (vy o) (vy v) in
  let dz := num_sub (vz o) (vz v) in
  js_sqrt (num_add (num_add (num_mul dx dx) (num_mul dy dy)) (num_mul dz dz)).

(** ** JavaScript [Map]: insertion-ordered, one entry per key *)

Definition jsmap (K V : Type) : Type := list (K * V).

Section JsMap.
Context {K V : Type} (keqb : K -> K -> bool).

Fixpoint map_get (m : jsmap K V) (k : K) : option V :=
  match m with
  | [] => None
  | (k', v) :: t => if keqb k' k then Some v else map_get t k
  end.

(** [m.set(k, v)]: an existing key keeps its place, a new key goes last. *)
Fixpoint map_set (m : jsmap K V) (k : K) (v : V) : jsmap K V :=
  match m with
  | [] => [(k, v)]
  | (k', v') :: t => if keqb k' k then (k', v) :: t else (k', v') :: map_set t k v
  end.

Definition map_delete (m : jsmap K V) (k : K) : jsmap K V :=
  filter (fun kv => negb (keqb (fst kv) k)) m.

Definition map_values (m : jsmap K V) : list V := map snd m.
End JsMap.

(** ** Domain data *)

Record BlockLoc : Type := mkLoc { lx : Z; ly : Z; lz : Z }.

Definition loc_vec (p : BlockLoc) : Vec3 := vec3 (Znum (lx p)) (Znum (ly p)) (Znum (lz p)).

Record Item : Type := mkItem { item_id : Z; item_name : string; item_count : Z }.

(** Entity objects as built by the [spawn_entity] and [spawn_player]
    handlers; a player object has a uuid and a name but no type and no
    velocity. *)
Record Entity : Type := mkEntity {
  ent_id : Z;
  ent_type : option string;
  ent_uuid : option string;
  ent_name : option string;
  ent_position : Vec3;
  ent_velocity : option Vec3;
  ent_yaw : number;
  ent_pitch : number;
  ent_metadata : option (list Z)
}.

(** Packets written to the server with [client.write]. *)
Inductive Packet : Type :=
| PChat (message : string)
| PLook (yaw pitch : number) (onGround : option bool)
| PUseEntity (target action hand : Z)
| PBlockPlace (location : Vec3) (direction hand : Z)
| PBlockDig (status : Z) (location : BlockLoc) (face : Z)
| PHeldItemSlot (slot : number)
| PWindowClick (windowId slot button action mode : Z) (item : option Item)
| PCloseWindow (windowId : Z)
| PPosition (x y z : number) (onGround : bool).

(** Signals emitted on the bot ([bot.emit]). *)
Inductive Signal : Type :=
| SigConnect
| SigDisconnect
| SigPosition (p : Vec3)
| SigChat (message sender : string)
| SigHealth (health food : number)
| SigDeath
| SigBlockUpdate (p : BlockLoc) (block : Z).

(** ** The bot object

    Entity objects live in a heap ([objects], indexed by reference): the
    [entities] and [players] maps and [Combat.target] hold references, so a
    player spawned once is one object reachable from both maps, as in the
    source. *)

Definition Ref := nat.

Record Agent : Type := mkAgent {
  connected : bool;
  position : Vec3;
  velocity : Vec3;
  yaw : number;
  pitch : number;
  onGround : option bool;
  health : number;
  food : number;
  foodSaturation : option number
}.

Record InventoryS : Type := mkInventory { slots : list (option Item); selectedSlot : number }.
Record WorldS : Type := mkWorld { blocks : jsmap string Z }.
Record TrackerS : Type := mkTracker {
  objects : list Entity; entities : jsmap Z Ref; players : jsmap Z Ref }.
Record PhysicsS : Type := mkPhysics { jumpCooldown : Z }.
Record CraftingS : Type := mkCrafting { craftingTablePos : option Vec3 }.
Record CombatS : Type := mkCombat { target : option Ref; attackCooldown : Z }.

(** The event loop: the [blockUpdate] listeners installed by [mineBlock]
    (keyed by the id of the promise they settle), the pending [setTimeout]
    callbacks (due time and the packet they write), the current time in
    milliseconds and the ids of the settled [mineBlock] promises. *)
Record LoopS : Type := mkLoop {
  blockUpdateListeners : list (nat * BlockLoc);
  timers : list (Z * Packet);
  clock : Z;
  settled : list nat
}.

Record Bot : Type := mkBot {
  agent : Agent;
  inventory : InventoryS;
  world : WorldS;
  tracker : TrackerS;
  physics : PhysicsS;
  crafting : CraftingS;
  combat : CombatS;
  loop : LoopS;
  out : list Packet;      (* packets written with client.write, oldest first *)
  emitted : list Signal   (* signals emitted on the bot, oldest first *)
}.

Definition with_agent (b : Bot) (a : Agent) : Bot :=
  mkBot a (inventory b) (world b) (tracker b) (physics b) (crafting b) (combat b) (loop b) (out b) (emitted b).
Definition with_inventory (b : Bot) (i : InventoryS) : Bot :=
  mkBot (agent b) i (world b) (tracker b) (physics b) (crafting b) (combat b) (loop b) (out b) (emitted b).
Definition with_world (b : Bot) (w : WorldS) : Bot :=
  mkBot (agent b) (inventory b) w (tracker b) (physics b) (crafting b) (combat b) (loop b) (out b) (emitted b).
Definition with_tracker (b : Bot) (t : TrackerS) : Bot :=
  mkBot (agent b) (inventory b) (world b) t (physics b) (crafting b) (combat b) (loop b) (out b) (emitted b).
Definition with_physics (b : Bot) (p : PhysicsS) : Bot :=
  mkBot (agent b) (inventory b) (world b) (tracker b) p (crafting b) (combat b) (loop b) (out b) (emitted b).
Definition with_combat (b : Bot) (c : CombatS) : Bot :=
  mkBot (agent b) (inventory b) (world b) (tracker b) (physics b) (crafting b) c (loop b) (out b) (emitted b).
Definition with_loop (b : Bot) (l : LoopS) : Bot :=
  mkBot (agent b) (inventory b) (world b) (tracker b) (physics b) (crafting b) (combat b) l (out b) (emitted b).

(** [this.client.write(...)] *)
Definition write (p : Packet) (b : Bot) : Bot :=
  mkBot (agent b) (inventory b) (world b) (tracker b) (physics b) (crafting b) (combat b) (loop b)
    (out b ++ [p]) (emitted b).

(** [this.emit(...)], as seen by listeners outside this file. *)
Definition emit (s : Signal) (b : Bot) : Bot :=
  mkBot (agent b) (inventory b) (world b) (tracker b) (physics b) (crafting b) (combat b) (loop b)
    (out b) (emitted b ++ [s]).

Definition set_position (a : Agent) (p : Vec3) : Agent :=
  mkAgent (connected a) p (velocity a) (yaw a) (pitch a) (onGround a) (health a) (food a) (foodSaturation a).
Definition set_velocity (a : Agent) (v : Vec3) : Agent :=
  mkAgent (connected a) (position a) v (yaw a) (pitch a) (onGround a) (health a) (food a) (foodSaturation a).
Definition set_look (a : Agent) (y p : number) : Agent :=
  mkAgent (connected a) (position a) (velocity a) y p (onGround a) (health a) (food a) (foodSaturation a).
Definition set_connected (a : Agent) (c : bool) : Agent :=
  mkAgent c (position a) (velocity a) (yaw a) (pitch a) (onGround a) (health a) (food a) (foodSaturation a).

(** The state right after [new MinecraftBot(options)]. *)
Definition zero3 : Vec3 := vec3 (Znum 0) (Znum 0) (Znum 0).

Definition initial_bot : Bot :=
  mkBot (mkAgent false zero3 zero3 (Znum 0) (Znum 0) None (Znum 20) (Znum 20) None)
    (mkInventory (repeat None 46) (Znum 0))
    (mkWorld [])
    (mkTracker [] [] [])
    (mkPhysics 0)
    (mkCrafting None)
    (mkCombat None 0)
    (mkLoop [] [] 0 [])
    [] [].

(** ** World *)

Section World.
Context `{JsMath}.

(** The key [`${position.x},${position.y},${position.z}`]. *)
Definition block_key (p : Vec3) : string :=
  js_string (vx p) ++ "," ++ js_string (vy p) ++ "," ++ js_string (vz p).

Definition setBlock (p : Vec3) (blockType : Z) (w : WorldS) : WorldS :=
  mkWorld (map_set String.eqb (blocks w) (block_key p) blockType).

(** [this.blocks.get(key) || 0] *)
Definition getBlock (p : Vec3) (w : WorldS) : Z :=
  match map_get String.eqb (blocks w) (block_key p) with
  | Some t => t
  | None => 0
  end.

(** Ignores the block: always 1000 ms. *)
Definition getDigTime (p : Vec3) (w : WorldS) : Z :=
  let _ := getBlock p w in 1000.

End World.

(** ** Inventory *)

(** [findItem(itemName)] takes a name (string) or an id (number); an item
    matches on [item.name === itemName || item.id === itemName]. *)
Inductive ItemKey : Type := KName (s : string) | KId (n : Z).

Definition item_matches (it : Item) (k : ItemKey) : bool :=
  match k with
  | KName s => String.eqb (item_name it) s
  | KId n => Z.eqb (item_id it) n
  end.

Fixpoint findItem_from (i : nat) (l : list (option Item)) (k : ItemKey) : option (Item * nat) :=
  match l with
  | [] => None
  | Some it :: t => if item_matches it k then Some (it, i) else findItem_from (S i) t k
  | None :: t => findItem_from (S i) t k
  end.

Definition findItem (inv : InventoryS) (k : ItemKey) : option (Item * nat) :=
  findItem_from 0 (slots inv) k.

(** Completion of a synchronous call: it returned, or it threw. *)
Inductive Completion : Type := Returned | Threw (message : string).

Definition selectSlot (slot : number) (b : Bot) : Completion * Bot :=
  if num_lt slot (Znum 0) || num_gt slot (Znum 8) then
    (Threw "Hotbar slots must be between 0 and 8", b)
  else
    (Returned,
     write (PHeldItemSlot slot) (with_inventory b (mkInventory (slots (inventory b)) slot))).

(** [this.slots[i] = v] on a JS array: past the end the array grows, the
    gap holding [undefined]. *)
Fixpoint array_assign {A} (l : list (option A)) (i : nat) (v : option A) : list (option A) :=
  match l, i with
  | [], O => [v]
  | [], S i' => None :: array_assign [] i' v
  | _ :: t, O => v :: t
  | x :: t, S i' => x :: array_assign t i' v
  end.

(** ** EntityTracker *)

Fixpoint heap_update (objs : list Entity) (r : Ref) (f : Entity -> Entity) : list Entity :=
  match objs, r with
  | [], _ => []
  | e :: t, O => f e :: t
  | e :: t, S r' => e :: heap_update t r' f
  end.

Definition set_ent_position (p : Vec3) (e : Entity) : Entity :=
  mkEntity (ent_id e) (ent_type e) (ent_uuid e) (ent_name e) p (ent_velocity e)
    (ent_yaw e) (ent_pitch e) (ent_metadata e).

Definition set_ent_metadata (m : list Z) (e : Entity) : Entity :=
  mkEntity (ent_id e) (ent_type e) (ent_uuid e) (ent_name e) (ent_position e) (ent_velocity e)
    (ent_yaw e) (ent_pitch e) (Some m).

(** The [spawn_entity] handler: a fresh object, stored under its id. *)
Definition on_spawn_entity (entityId : Z) (type : string) (x y z vX vY vZ yw ptch : number)
    (t : TrackerS) : TrackerS :=
  let r := length (objects t) in
  let e := mkEntity entityId (Some type) None None (vec3 x y z) (Some (vec3 vX vY vZ)) yw ptch None in
  mkTracker (objects t ++ [e]) (map_set Z.eqb (entities t) entityId r) (players t).

(** The [spawn_player] handler: one fresh object, stored in [players] and,
    read back from [players], in [entities]. *)
Definition on_spawn_player (entityId : Z) (uuid name : string) (x y z yw ptch : number)
    (t : TrackerS) : TrackerS :=
  let r := length (objects t) in
  let e := mkEntity entityId None (Some uuid) (Some name) (vec3 x y z) None yw ptch None in
  let pl := map_set Z.eqb (players t) entityId r in
  let ents := match map_get Z.eqb pl entityId with
              | Some r' => map_set Z.eqb (entities t) entityId r'
              | None => entities t
              end in
  mkTracker (objects t ++ [e]) ents pl.

(** The [entity_destroy] handler. *)
Definition on_entity_destroy (entityIds : list Z) (t : TrackerS) : TrackerS :=
  fold_left (fun t id =>
               mkTracker (objects t) (map_delete Z.eqb (entities t) id) (map_delete Z.eqb (players t) id))
            entityIds t.

(** The [entity_move] handler: [entity.position.add(dX / 32, dY / 32, dZ / 32)]. *)
Definition on_entity_move (entityId : Z) (dX dY dZ : number) (t : TrackerS) : TrackerS :=
  match map_get Z.eqb (entities t) entityId with
  | Some r =>
      let d := fun n => num_mul n (Num (1 # 32)) in
      mkTracker (heap_update (objects t) r
                   (fun e => set_ent_position (add (ent_position e) (ArgNumbers (d dX) (d dY) (d dZ))) e))
                (entities t) (players t)
  | None => t
  end.

Definition updateMetadata (entityId : Z) (metadata : list Z) (t : TrackerS) : TrackerS :=
  match map_get Z.eqb (entities t) entityId with
  | Some r => mkTracker (heap_update (objects t) r (set_ent_metadata metadata)) (entities t) (players t)
  | None => t
  end.

(** [type]: an entity type or an array of them. *)
Inductive TypeArg : Type := OneType (t : string) | TypeArray (ts : list string).

Definition includes (types : list string) (t : option string) : bool :=
  match t with
  | Some s => existsb (String.eqb s) types
  | None => false
  end.

Section Nearest.
Context `{JsMath}.

Definition nearest_step (types : list string) (here : Vec3) (objs : list Entity)
    (acc : option Ref * number) (r : Ref) : option Ref * number :=
  match nth_error objs r with
  | Some e =>
      if negb (includes types (ent_type e)) then acc
      else
        let distance := distanceTo (ent_position e) here in
        if num_lt distance (snd acc) then (Some r, distance) else acc
  | None => acc
  end.

(** [findNearestEntity(type, maxDistance)] over [this.entities.values()];
    the default [maxDistance] is [Infinity]. *)
Definition findNearestEntity (type : TypeArg) (maxDistance : number) (b : Bot) : option Ref :=
  let types := match type with OneType t => [t] | TypeArray ts => ts end in
  fst (fold_left (nearest_step types (position (agent b)) (objects (tracker b)))
                 (map_values (entities (tracker b))) (None, maxDistance)).

End Nearest.

(** ** Packets from the server *)

Inductive Inbound : Type :=
| InConnect
| InDisconnect
| InPosition (x y z yaw pitch : number) (onGround : option bool)
| InChat (message sender : string)
| InEntityMetadata (entityId : Z) (metadata : list Z)
| InHealth (health food foodSaturation : number)
| InBlockChange (location : BlockLoc) (type : Z)
| InSpawnEntity (entityId : Z) (type : string) (x y z velocityX velocityY velocityZ yaw pitch : number)
| InSpawnPlayer (entityId : Z) (uuid name : string) (x y z yaw pitch : number)
| InEntityDestroy (entityIds : list Z)
| InEntityMove (entityId : Z) (dX dY dZ : number)
| InWindowItems (items : list (option Item))
| InSetSlot (slot : nat) (item : option Item).

Definition loc_eqb (p q : BlockLoc) : bool :=
  Z.eqb (lx p) (lx q) && Z.eqb (ly p) (ly q) && Z.eqb (lz p) (lz q).

Definition num_le (a b : number) : bool := num_lt a b || num_eq a b.

(** [this.emit('blockUpdate', pos, block)]: every [onBlockBreak] listener
    installed by [mineBlock] for exactly this coordinate removes itself and
    resolves its promise; the others stay. *)
Definition emit_blockUpdate (loc : BlockLoc) (block : Z) (b : Bot) : Bot :=
  let l := loop b in
  let hit := filter (fun lst => loc_eqb (snd lst) loc) (blockUpdateListeners l) in
  let keep := filter (fun lst => negb (loc_eqb (snd lst) loc)) (blockUpdateListeners l) in
  emit (SigBlockUpdate loc block)
    (with_loop b (mkLoop keep (timers l) (clock l) (settled l ++ map fst hit))).

Section Handlers.
Context `{JsMath}.

(** The [position] handler. *)
Definition on_position (x y z yw ptch : number) (og : option bool) (b : Bot) : Bot :=
  let a := agent b in
  let a' := mkAgent (connected a) (vec3 x y z) (velocity a) yw ptch og
                    (health a) (food a) (foodSaturation a) in
  emit (SigPosition (vec3 x y z)) (with_agent b a').

(** The [health] handler. *)
Definition on_health (hp fd sat : number) (b : Bot) : Bot :=
  let a := agent b in
  let a' := mkAgent (connected a) (position a) (velocity a) (yaw a) (pitch a) (onGround a)
                    hp fd (Some sat) in
  let b1 := emit (SigHealth hp fd) (with_agent b a') in
  if num_le (health (agent b1)) (Znum 0) then emit SigDeath b1 else b1.

(** The [block_change] handler. *)
Definition on_block_change (location : BlockLoc) (type : Z) (b : Bot) : Bot :=
  let pos := loc_vec location in
  let b1 := with_world b (setBlock pos type (world b)) in
  emit_blockUpdate location type b1.

Definition handle (p : Inbound) (b : Bot) : Bot :=
  match p with
  | InConnect => emit SigConnect (with_agent b (set_connected (agent b) true))
  | InDisconnect => emit SigDisconnect (with_agent b (set_connected (agent b) false))
  | InPosition x y z yw ptch og => on_position x y z yw ptch og b
  | InChat m s => emit (SigChat m s) b
  | InEntityMetadata id md => with_tracker b (updateMetadata id md (tracker b))
  | InHealth hp fd sat => on_health hp fd sat b
  | InBlockChange loc t => on_block_change loc t b
  | InSpawnEntity id ty x y z vX vY vZ yw ptch =>
      with_tracker b (on_spawn_entity id ty x y z vX vY vZ yw ptch (tracker b))
  | InSpawnPlayer id u n x y z yw ptch =>
      with_tracker b (on_spawn_player id u n x y z yw ptch (tracker b))
  | InEntityDestroy ids => with_tracker b (on_entity_destroy ids (tracker b))
  | InEntityMove id dX dY dZ => with_tracker b (on_entity_move id dX dY dZ (tracker b))
  | InWindowItems items => with_inventory b (mkInventory items (selectedSlot (inventory b)))
  | InSetSlot i it =>
      with_inventory b (mkInventory (array_assign (slots (inventory b)) i it) (selectedSlot (inventory b)))
  end.

(** ** MinecraftBot methods *)

Definition lookAt (x y z : number) (b : Bot) : Bot :=
  let a := agent b in
  let delta := minus (vec3 x y z) (position a) in
  let yw := js_atan2 (num_neg (vx delta)) (num_neg (vz delta)) in
  let groundDistance := js_sqrt (num_add (num_mul (vx delta) (vx delta)) (num_mul (vz delta) (vz delta))) in
  let ptch := js_atan2 (vy delta) groundDistance in
  write (PLook yw ptch (onGround a)) (with_agent b (set_look a yw ptch)).

Definition attack (entityId : Z) (b : Bot) : Bot := write (PUseEntity entityId 1 0) b.

(** [mineBlock(x, y, z)], the call made under promise id [pid]: it writes
    the start-dig packet, installs [onBlockBreak] and schedules the
    finish-dig packet after [getDigTime]. The promise resolves when
    [onBlockBreak] fires; nothing rejects it. *)
Definition mineBlock (pid : nat) (loc : BlockLoc) (b : Bot) : Bot :=
  let b1 := write (PBlockDig 0 loc 1) b in
  let l := loop b1 in
  let due := clock l + getDigTime (loc_vec loc) (world b1) in
  with_loop b1 (mkLoop (blockUpdateListeners l ++ [(pid, loc)])
                       (timers l ++ [(due, PBlockDig 2 loc 1)]) (clock l) (settled l)).

(** Time passes by [ms] milliseconds: the [setTimeout] callbacks now due run
    in order. *)
Definition advance (ms : N) (b : Bot) : Bot :=
  let l := loop b in
  let now := clock l + Z.of_N ms in
  let due := filter (fun t => fst t <=? now) (timers l) in
  let later := filter (fun t => negb (fst t <=? now)) (timers l) in
  let b1 := with_loop b (mkLoop (blockUpdateListeners l) later now (settled l)) in
  fold_left (fun b t => write (snd t) b) due b1.

(** The state of the promise returned by the [mineBlock] call [pid]. *)
Inductive PromiseState : Type := Pending | Fulfilled.

Definition mine_state (pid : nat) (b : Bot) : PromiseState :=
  if existsb (Nat.eqb pid) (settled (loop b)) then Fulfilled else Pending.

(** ** Physics *)

Definition gravity : number := Num (-2 # 25).     (* -0.08 *)
Definition jumpSpeed : number := Num (21 # 50).   (* 0.42 *)

Definition isOnGround (b : Bot) : bool :=
  negb (getBlock (offset (position (agent b)) (Znum 0) (Num (-1 # 10)) (Znum 0)) (world b) =? 0).

Definition sendPositionUpdate (b : Bot) : Bot :=
  let p := position (agent b) in
  write (PPosition (vx p) (vy p) (vz p) (isOnGround b)) b.

(** [Physics._update], run every 50 ms. *)
Definition physics_update (b : Bot) : Bot :=
  if negb (connected (agent b)) then b
  else
    let a := agent b in
    let v := velocity a in
    let v1 := if negb (isOnGround b) then vec3 (vx v) (num_add (vy v) gravity) (vz v)
              else if num_lt (vy v) (Znum 0) then vec3 (vx v) (Znum 0) (vz v)
              else v in
    let a1 := set_position (set_velocity a v1) (add (position a) (ArgVec v1)) in
    let jc := jumpCooldown (physics b) in
    let jc1 := if 0 <? jc then jc - 1 else jc in
    sendPositionUpdate (with_physics (with_agent b a1) (mkPhysics jc1)).

Definition jump (b : Bot) : Bot :=
  if isOnGround b && (jumpCooldown (physics b) =? 0) then
    let a := agent b in
    let v := velocity a in
    with_physics (with_agent b (set_velocity a (vec3 (vx v) jumpSpeed (vz v)))) (mkPhysics 10)
  else b.

Definition move (x z : number) (sprint : bool) (b : Bot) : Bot :=
  let speed := if sprint then Num (13 # 100) else Num (1 # 10) in
  let a := agent b in
  let yw := yaw a in
  let v := velocity a in
  let vx' := num_mul (num_sub (num_mul x (js_sin yw)) (num_mul z (js_cos yw))) speed in
  let vz' := num_mul (num_add (num_mul z (js_sin yw)) (num_mul x (js_cos yw))) speed in
  with_agent b (set_velocity a (vec3 vx' (vy v) vz')).

End Handlers.

(** ** Crafting *)

Record Ingredient : Type := mkIngredient { ing_item : string; ing_count : Z }.

Record Recipe : Type := mkRecipe {
  ingredients : list Ingredient;
  result_item : string;
  result_count : Z;
  requiresCraftingTable : bool
}.

(** The table filled by [_loadRecipes]. *)
Definition recipes : jsmap string Recipe :=
  [("stick"%string, mkRecipe [mkIngredient "planks" 2] "stick" 4 false)].

(** How an [async] call stands when control first leaves it: its promise
    is rejected with a message, fulfilled, or the body waits at an [await]. *)
Inductive AsyncRun : Type :=
| Rejected (message : string)
| Resolved
| Suspended.

(** The ingredient check loop: the first ingredient that is not found, or
    whose first stack is too small for [count] crafts. *)
Fixpoint missing_ingredient (inv : InventoryS) (count : number) (ings : list Ingredient)
    : option string :=
  match ings with
  | [] => None
  | ing :: t =>
      match findItem inv (KName (ing_item ing)) with
      | None => Some (ing_item ing)
      | Some (it, _) =>
          if num_lt (Znum (item_count it)) (num_mul (Znum (ing_count ing)) count)
          then Some (ing_item ing)
          else missing_ingredient inv count t
      end
  end.

(** The "place ingredients" loop, one window click per ingredient. *)
Fixpoint place_ingredients (windowId : Z) (i : Z) (ings : list Ingredient) (b : Bot) : option Bot :=
  match ings with
  | [] => Some b
  | ing :: t =>
      match findItem (inventory b) (KName (ing_item ing)) with
      | Some (it, s) =>
          place_ingredients windowId (i + 1) t (write (PWindowClick windowId (Z.of_nat s) 0 i 0 (Some it)) b)
      | None => None          (* [found.slot] on null: a TypeError *)
      end
  end.

(** The part of [craft] after the crafting table (if any) is open. *)
Definition craft_clicks (r : Recipe) (b : Bot) : AsyncRun * Bot :=
  let wid := if requiresCraftingTable r then 1 else 0 in
  match place_ingredients wid 0 (ingredients r) b with
  | None => (Rejected "TypeError", b)
  | Some b1 =>
      let b2 := write (PWindowClick wid 0 0 (Z.of_nat (length (ingredients r))) 0 None) b1 in
      (Resolved, if requiresCraftingTable r then write (PCloseWindow 1) b2 else b2)
  end.

Section CraftingSection.
Context `{JsMath}.

(** The synchronous part of [_openCraftingTable]: it then awaits [moveTo]
    (if the table is farther than 3) or the [window_open] event. *)
Definition openCraftingTable (b : Bot) : AsyncRun * Bot :=
  match craftingTablePos (crafting b) with
  | None => (Rejected "No crafting table position set", b)
  | Some p =>
      if num_gt (distanceTo (position (agent b)) p) (Znum 3) then (Suspended, b)
      else (Suspended, write (PBlockPlace p 1 0) b)
  end.

(** [craft(itemName, count)] up to the point where control first leaves it. *)
Definition craft (itemName : string) (count : number) (b : Bot) : AsyncRun * Bot :=
  match map_get String.eqb recipes itemName with
  | None => (Rejected ("Unknown recipe: " ++ itemName), b)
  | Some r =>
      if requiresCraftingTable r && match craftingTablePos (crafting b) with Some _ => false | None => true end then
        (Rejected "Crafting table required but not found", b)
      else
        match missing_ingredient (inventory b) count (ingredients r) with
        | Some item => (Rejected ("Missing ingredient: " ++ item), b)
        | None => if requiresCraftingTable r then openCraftingTable b else craft_clicks r b
        end
  end.

(** ** Combat *)

(** [Combat._update], run every 50 ms. *)
Definition combat_update (b : Bot) : Bot :=
  if negb (connected (agent b)) then b
  else
    match target (combat b) with
    | None => b
    | Some tr =>
        match nth_error (objects (tracker b)) tr with
        | None => b
        | Some te =>
            match map_get Z.eqb (entities (tracker b)) (ent_id te) with
            | None => with_combat b (mkCombat None (attackCooldown (combat b)))
            | Some r =>
                match nth_error (objects (tracker b)) r with
                | None => b
                | Some e =>
                    let distance := distanceTo (ent_position e) (position (agent b)) in
                    if num_gt distance (Znum 3) then
                      let p := ent_position e in
                      lookAt (vx p) (num_add (vy p) (Znum 1)) (vz p) (move (Znum 0) (Znum 1) true b)
                    else if attackCooldown (combat b) =? 0 then
                      with_combat (attack (ent_id te) b) (mkCombat (Some tr) 10)
                    else with_combat b (mkCombat (Some tr) (attackCooldown (combat b) - 1))
                end
            end
        end
    end.

Definition attackEntity (r : Ref) (b : Bot) : Bot :=
  match nth_error (objects (tracker b)) r with
  | Some e =>
      let b1 := with_combat b (mkCombat (Some r) (attackCooldown (combat b))) in
      let p := ent_position e in
      attack (ent_id e) (lookAt (vx p) (num_add (vy p) (Znum 1)) (vz p) b1)
  | None => b
  end.

Definition attackNearestEntity (type : TypeArg) (maxDistance : number) (b : Bot) : Bot :=
  match findNearestEntity type maxDistance b with
  | Some r => attackEntity r b
  | None => b
  end.

Definition stop (b : Bot) : Bot := with_combat b (mkCombat None (attackCooldown (combat b))).

(** One 50 ms tick: the Physics interval, then the Combat interval (the
    order in which the constructor installs them). *)
Definition tick (b : Bot) : Bot := combat_update (physics_update b).

(** Whether [combat_update] on [b] reaches its strike branch (the one that
    attacks or counts the attack cooldown down): a target still tracked
    under its id, not farther than 3. *)
Definition in_strike_range (b : Bot) : bool :=
  match target (combat b) with
  | Some tr =>
      match nth_error (objects (tracker b)) tr with
      | Some te =>
          match map_get Z.eqb (entities (tracker b)) (ent_id te) with
          | Some r =>
              match nth_error (objects (tracker b)) r with
              | Some e => negb (num_gt (distanceTo (ent_position e) (position (agent b))) (Znum 3))
              | None => false
              end
          | None => false
          end
      | None => false
      end
  | None => false
  end.

(** ** Runs: any interleaving of server packets, timer callbacks, interval
    ticks and calls of the bot's API *)

Inductive Op : Type :=
| OpPacket (p : Inbound)
| OpAdvance (ms : N)
| OpPhysicsUpdate
| OpCombatUpdate
| OpJump
| OpMove (x z : number) (sprint : bool)
| OpAttackEntity (r : Ref)
| OpAttackNearest (type : TypeArg) (maxDistance : number)
| OpStop
| OpMineBlock (pid : nat) (loc : BlockLoc)
| OpSelectSlot (slot : number)
| OpCraft (itemName : string) (count : number).

Definition step (o : Op) (b : Bot) : Bot :=
  match o with
  | OpPacket p => handle p b
  | OpAdvance ms => advance ms b
  | OpPhysicsUpdate => physics_update b
  | OpCombatUpdate => combat_update b
  | OpJump => jump b
  | OpMove x z s => move x z s b
  | OpAttackEntity r => attackEntity r b
  | OpAttackNearest ty d => attackNearestEntity ty d b
  | OpStop => stop b
  | OpMineBlock pid loc => mineBlock pid loc b
  | OpSelectSlot s => snd (selectSlot s b)
  | OpCraft n c => snd (craft n c b)
  end.

Definition run (os : list Op) (b : Bot) : Bot := fold_left (fun b o => step o b) os b.

End CraftingSection.

(** ** More of the API: walkability, the nearest player *)

Section MoreApi.
Context `{JsMath}.

(** [World.isWalkable(position)]. *)
Definition isWalkable (position : Vec3) (w : WorldS) : bool :=
  let block := getBlock position w in
  let blockAbove := getBlock (offset position (Znum 0) (Znum 1) (Znum 0)) w in
  let blockBelow := getBlock (offset position (Znum 0) (Znum (-1)) (Znum 0)) w in
  (block =? 0) && (blockAbove =? 0) && negb (blockBelow =? 0).

Definition nearest_player_step (here : Vec3) (objs : list Entity)
    (acc : option Ref * number) (r : Ref) : option Ref * number :=
  match nth_error objs r with
  | Some e =>
      let distance := distanceTo (ent_position e) here in
      if num_lt distance (snd acc) then (Some r, distance) else acc
  | None => acc
  end.

(** [EntityTracker.findNearestPlayer(maxDistance)] over
    [this.players.values()]; the default [maxDistance] is [Infinity]. *)
Definition findNearestPlayer (maxDistance : number) (b : Bot) : option Ref :=
  fst (fold_left (nearest_player_step (position (agent b)) (objects (tracker b)))
                 (map_values (players (tracker b))) (None, maxDistance)).

(** The candidate distance of the object at a reference, as the two
    searches see it: [None] when the loop skips it. *)
Definition entity_cand (types : list string) (here : Vec3) (objs : list Entity) (r : Ref)
    : option number :=
  match nth_error objs r with
  | Some e => if includes types (ent_type e) then Some (distanceTo (ent_position e) here) else None
  | None => None
  end.

Definition player_cand (here : Vec3) (objs : list Entity) (r : Ref) : option number :=
  match nth_error objs r with
  | Some e => Some (distanceTo (ent_position e) here)
  | None => None
  end.

End MoreApi.

(** [Array.isArray(type) ? type : [type]] *)
Definition type_list (type : TypeArg) : list string :=
  match type with OneType t => [t] | TypeArray ts => ts end.

(** One iteration of a "keep the strictly nearest" loop. *)
Definition keep_nearest (cand : Ref -> option number) (acc : option Ref * number) (r : Ref)
    : option Ref * number :=
  match cand r with
  | Some d => if num_lt d (snd acc) then (Some r, d) else acc
  | None => acc
  end.

(** ** A sample instance of the Math functions, for concrete runs

    [Math.sqrt] is replaced by the identity, which keeps the comparisons of
    distances with each other; sin, cos and atan2 by 0. Integers print as
    in JavaScript. *)

Definition Z_to_string (z : Z) : string := NilZero.string_of_int (Z.to_int z).

#[export] Instance sample_math : JsMath := {|
  Math_sin := fun _ => Num 0;
  Math_cos := fun _ => Num 0;
  Math_atan2 := fun _ _ => Num 0;
  Math_sqrt := fun x => Num x;
  Number_toString := fun q =>
    if (Zpos (Qden q) =? 1)%Z then Z_to_string (Qnum q)
    else (Z_to_string (Qnum q) ++ "/" ++ Z_to_string (Zpos (Qden q)))%string
|}.

Definition origin_loc : BlockLoc := mkLoc 0 64 0.

(** What one operation does to the [mineBlock] listeners and to the settled
    promises. *)
Definition listeners_after (o : Op) (ls : list (nat * BlockLoc)) : list (nat * BlockLoc) :=
  match o with
  | OpPacket (InBlockChange loc _) => filter (fun lst => negb (loc_eqb (snd lst) loc)) ls
  | OpMineBlock pid loc => ls ++ [(pid, loc)]
  | _ => ls
  end.

Definition settled_after (o : Op) (ls : list (nat * BlockLoc)) (st : list nat) : list nat :=
  match o with
  | OpPacket (InBlockChange loc _) => st ++ map fst (filter (fun lst => loc_eqb (snd lst) loc) ls)
  | _ => st
  end.

Definition cooldowns_ok (b : Bot) : Prop :=
  0 <= jumpCooldown (physics b) /\ 0 <= attackCooldown (combat b).

(** Every entry of the [entities] map refers to an allocated object whose
    [id] is the entry's key. *)
Definition tracker_ok (t : TrackerS) : Prop :=
  forall k r, In (k, r) (entities t) -> exists e, nth_error (objects t) r = Some e /\ ent_id e = k.

(** A fresh bot that connects, sees a zombie spawn at its feet, attacks it
    (one strike: attack cooldown 10), then stops attacking. *)
Definition struck_then_stopped : Bot :=
  run [OpPacket InConnect;
       OpPacket (InSpawnEntity 7 "zombie" (Znum 0) (Znum 0) (Znum 0) (Znum 0) (Znum 0) (Znum 0)
                               (Znum 0) (Znum 0));
       OpAttackNearest (OneType "zombie") (Znum 16);
       OpCombatUpdate;
       OpStop] initial_bot.

(** A second sample of the Math functions, whose number-to-string
    conversion, like JavaScript's, gives every value one spelling: a
    fraction in lowest terms. *)
Definition Q_to_string (q : Q) : string :=
  let r := Qred q in
  if (Zpos (Qden r) =? 1)%Z then Z_to_string (Qnum r)
  else (Z_to_string (Qnum r) ++ "/" ++ Z_to_string (Zpos (Qden r)))%string.

Definition reduced_math : JsMath := {|
  Math_sin := fun _ => Num 0;
  Math_cos := fun _ => Num 0;
  Math_atan2 := fun _ _ => Num 0;
  Math_sqrt := fun x => Num x;
  Number_toString := Q_to_string
|}.

(** A connected bot standing at height 63.1 over a stone block at
    (0, 63, 0), under [reduced_math]. *)
Definition standing_bot : Bot :=
  @run reduced_math
    [OpPacket InConnect; OpPacket (InBlockChange (mkLoc 0 63 0) 1);
     OpPacket (InPosition (Znum 0) (Num (631 # 10)) (Znum 0) (Znum 0) (Znum 0) (Some true))]
    initial_bot.

(** A connected bot whose attack has just targeted a zombie at its feet. *)
Definition targeting_bot : Bot :=
  run [OpPacket InConnect;
       OpPacket (InSpawnEntity 7 "zombie" (Znum 0) (Znum 0) (Znum 0) (Znum 0) (Znum 0) (Znum 0)
                               (Znum 0) (Znum 0));
       OpAttackNearest (OneType "zombie") (Znum 16)] initial_bot.

(** The same with the zombie 10 blocks away, found with no distance bound. *)
Definition chasing_bot : Bot :=
  run [OpPacket InConnect;
       OpPacket (InSpawnEntity 7 "zombie" (Znum 10) (Znum 0) (Znum 0) (Znum 0) (Znum 0) (Znum 0)
                               (Znum 0) (Znum 0));
       OpAttackNearest (OneType "zombie") (Infinity true)] initial_bot.

(** A bot holding 4 planks in slot 3. *)
Definition planks_bot : Bot :=
  run [OpPacket (InSetSlot 3 (Some (mkItem 5 "planks" 4)))] initial_bot.

(** The fields [in_strike_range] and [combat_update] read. *)
Definition strike_view (b : Bot) : bool * TrackerS * Vec3 :=
  (connected (agent b), tracker b, position (agent b)).

(** The position an [entity_move] packet leaves: [add] given three numbers
    instead of a vector adds [undefined] to each coordinate. *)
Definition nan3 : Vec3 := vec3 NaN NaN NaN.

(** The object [r] exists and sits at [nan3]. *)
Definition moved_inv (r : Ref) (b : Bot) : Prop :=
  exists e, nth_error (objects (tracker b)) r = Some e /\ ent_position e = nan3.

(** Connect, see a zombie spawn 100 blocks away, and target it. *)
Definition zombie_far_ops : list Op :=
  [OpPacket InConnect;
   OpPacket (InSpawnEntity 7 "zombie" (Znum 100) (Znum 0) (Znum 0) (Znum 0) (Znum 0) (Znum 0)
                           (Znum 0) (Znum 0));
   OpAttackEntity O].

(** Every entry of the [players] map refers to an allocated object whose
    [id] is the entry's key and which has a uuid and a name (one made by
    [spawn_player]). *)
Definition players_ok (t : TrackerS) : Prop :=
  forall k r, In (k, r) (players t) ->
    exists e u n, nth_error (objects t) r = Some e /\ ent_id e = k /\
                  ent_uuid e = Some u /\ ent_name e = Some n.

(** A bot that connects and sees a player spawn 5 blocks away. *)
Definition player_nearby_bot : Bot :=
  run [OpPacket InConnect;
       OpPacket (InSpawnPlayer 5 "uuid-5" "alice" (Znum 3) (Znum 0) (Znum 4) (Znum 0) (Znum 0))]
      initial_bot.


Example block_key_example : block_key (loc_vec origin_loc) = "0,64,0"%string.
Proof. reflexivity. Qed.

Example mine_then_break :
  mine_state 1 (run [OpMineBlock 1 origin_loc; OpAdvance 1000%N;
                     OpPacket (InBlockChange origin_loc 0)] initial_bot) = Fulfilled.
Proof. reflexivity. Qed.

Example mine_finish_dig_written :
  out (run [OpMineBlock 1 origin_loc; OpAdvance 999%N; OpAdvance 1%N] initial_bot)
  = [PBlockDig 0 origin_loc 1; PBlockDig 2 origin_loc 1].
Proof. reflexivity. Qed.

(** * Properties *)

(** ** Lemmas on the JS Map model *)

Section JsMapFacts.
Context {K V : Type} (keqb : K -> K -> bool).
Hypothesis keqb_refl : forall k, keqb k k = true.

Lemma map_set_set_same (m : jsmap K V) (k : K) (v : V) :
  map_set keqb (map_set keqb m k v) k v = map_set keqb m k v.
Proof.
  induction m as [| [k' v'] t IH]; simpl.
  - rewrite keqb_refl; reflexivity.
  - destruct (keqb k' k) eqn:E; simpl; rewrite E.
    + reflexivity.
    + rewrite IH; reflexivity.
Qed.
End JsMapFacts.

Lemma Qlt_bool_iff (a b : Q) : Qlt_bool a b = true <-> (a < b)%Q.
Proof.
  unfold Qlt_bool. rewrite negb_true_iff. split; intro H.
  - apply Qnot_le_lt. intro H'. apply Qle_bool_iff in H'. congruence.
  - destruct (Qle_bool b a) eqn:E; [|reflexivity].
    apply Qle_bool_iff in E. exfalso. apply (Qlt_not_le a b); assumption.
Qed.


(** ** C9: a block change applied twice leaves the block map as applied once *)

Section BlockIdempotence.
Context `{JsMath}.

(** C9. [setBlock(pos, b)] twice gives the block map of one
    [setBlock(pos, b)]; so does the [block_change] handler run twice on the
    same packet. *)
Theorem setBlock_idempotent (p : Vec3) (t : Z) (w : WorldS) (b : Bot) (loc : BlockLoc) :
  setBlock p t (setBlock p t w) = setBlock p t w /\
  world (handle (InBlockChange loc t) (handle (InBlockChange loc t) b))
  = world (handle (InBlockChange loc t) b).
Proof.
  assert (Hset : forall w', setBlock p t (setBlock p t w') = setBlock p t w').
  { intro w'. unfold setBlock. simpl. f_equal.
    apply map_set_set_same. intro k. apply String.eqb_refl. }
  split; [apply Hset|].
  simpl. unfold on_block_change, emit_blockUpdate, emit, with_loop, with_world. simpl.
  unfold setBlock. simpl. f_equal. apply map_set_set_same. intro k. apply String.eqb_refl.
Qed.

(** ** C7: a position event overrides the predicted position *)

(** C7. After the [position] handler, the bot's position, yaw and pitch are
    those of the packet, whatever the state before. *)
Theorem position_event_overrides (b : Bot) (x y z yw ptch : number) (og : option bool) :
  let b' := handle (InPosition x y z yw ptch og) b in
  position (agent b') = vec3 x y z /\ yaw (agent b') = yw /\ pitch (agent b') = ptch.
Proof. simpl. repeat split. Qed.

End BlockIdempotence.

(** ** C10: selectSlot accepts exactly 0..8 *)




(** ** C5: death signals on health updates *)

(** C5 (as the code does it). A health update writes the [health] signal
    and, when its health is zero or below, one [death] signal; nothing
    remembers an earlier death, so every such update signals it again. *)
Theorem health_update_death_signal (b : Bot) (hp fd sat : number) :
  emitted (handle (InHealth hp fd sat) b)
  = emitted b ++ SigHealth hp fd :: (if num_le hp (Znum 0) then [SigDeath] else []).
Proof.
  simpl. unfold on_health, emit, with_agent. simpl.
  destruct (num_le hp (Znum 0)); simpl; rewrite <- ?app_assoc; reflexivity.
Qed.

(** C5, refuted: two consecutive zero-health updates signal death twice. *)
Lemma two_zero_health_updates_two_deaths :
  emitted (run [OpPacket (InHealth (Znum 0) (Znum 20) (Znum 5));
                OpPacket (InHealth (Znum 0) (Znum 20) (Znum 5))] initial_bot)
  = [SigHealth (Znum 0) (Znum 20); SigDeath; SigHealth (Znum 0) (Znum 20); SigDeath].
Proof. reflexivity. Qed.

(** ** C6: crafting without an ingredient fails before writing anything *)

Lemma findItem_from_found (i : nat) (l : list (option Item)) (k : ItemKey) (it : Item) (s : nat) :
  findItem_from i l k = Some (it, s) -> In (Some it) l /\ item_matches it k = true.
Proof.
  revert i. induction l as [| [x|] t IH]; intro i; simpl; try discriminate.
  - destruct (item_matches x k) eqn:E.
    + intro Heq. inversion Heq; subst. auto.
    + intro Hf. destruct (IH (S i) Hf). auto.
  - intro Hf. destruct (IH (S i) Hf). auto.
Qed.

Lemma zero_lt_scaled_count (c : Z) (count : number) :
  (0 < c)%Z -> num_lt (Znum 0) count = true -> num_lt (Znum 0) (num_mul (Znum c) count) = true.
Proof.
  intros Hc Hcount. destruct count as [q| |[|]]; simpl in *; try discriminate.
  - apply Qlt_bool_iff. apply Qlt_bool_iff in Hcount.
    apply Qmult_lt_0_compat; [unfold Qlt; simpl; lia | exact Hcount].
  - destruct (Qeq_bool (inject_Z c) 0) eqn:E.
    + apply Qeq_bool_iff in E. unfold Qeq in E. simpl in E. lia.
    + destruct (Qlt_bool (inject_Z c) 0) eqn:E2; [|reflexivity].
      apply Qlt_bool_iff in E2. unfold Qlt in E2. simpl in E2. lia.
Qed.

Section CraftFacts.
Context `{JsMath}.

(** C6. [craft] of an item whose recipe needs an ingredient of which the
    inventory holds nothing (no stack, or only empty stacks), for a positive
    [count], rejects with "Missing ingredient" before anything is written:
    the bot, and so the packets written, are unchanged. *)
Theorem craft_missing_ingredient_fails_fast (itemName : string) (r : Recipe) (ing : Ingredient)
    (count : number) (b : Bot) :
  map_get String.eqb recipes itemName = Some r ->
  In ing (ingredients r) ->
  (forall it, In (Some it) (slots (inventory b)) -> item_name it = ing_item ing -> item_count it = 0) ->
  num_lt (Znum 0) count = true ->
  craft itemName count b = (Rejected ("Missing ingredient: " ++ ing_item ing), b).
Proof.
  intros Hr Hing Habsent Hcount.
  unfold recipes in Hr. cbn [map_get] in Hr.
  destruct (String.eqb "stick" itemName) eqn:E; [|discriminate].
  apply String.eqb_eq in E. subst itemName. inversion Hr; subst r. clear Hr.
  simpl in Hing. destruct Hing as [Hing | []]. subst ing.
  unfold craft, recipes. cbn [map_get]. rewrite String.eqb_refl.
  cbn [ingredients requiresCraftingTable andb missing_ingredient ing_item ing_count].
  destruct (findItem (inventory b) (KName "planks")) as [[it s]|] eqn:F; [|reflexivity].
  apply findItem_from_found in F. destruct F as [Hin Hm].
  simpl in Hm. apply String.eqb_eq in Hm.
  rewrite (Habsent it Hin Hm).
  rewrite (zero_lt_scaled_count 2 count); [reflexivity | lia | exact Hcount].
Qed.

End CraftFacts.

Lemma craft_missing_ingredient_fails_fast_witness :
  craft "stick" (Znum 1) initial_bot = (Rejected ("Missing ingredient: " ++ "planks"), initial_bot).
Proof.
  apply (craft_missing_ingredient_fails_fast "stick" (mkRecipe [mkIngredient "planks" 2] "stick" 4 false)
           (mkIngredient "planks" 2) (Znum 1) initial_bot).
  - reflexivity.
  - simpl. left. reflexivity.
  - intros it Hin. apply repeat_spec in Hin. discriminate.
  - reflexivity.
Defined.

(** ** Mining: the [blockUpdate] listeners and the settled promises *)

Lemma loc_eqb_spec (p q : BlockLoc) : loc_eqb p q = true <-> p = q.
Proof.
  destruct p as [x1 y1 z1], q as [x2 y2 z2]. unfold loc_eqb; simpl.
  rewrite !andb_true_iff, !Z.eqb_eq. split.
  - intros [[-> ->] ->]. reflexivity.
  - intro Heq. inversion Heq. auto.
Qed.

Lemma loc_eqb_refl (p : BlockLoc) : loc_eqb p p = true.
Proof. apply loc_eqb_spec. reflexivity. Qed.

Lemma loop_fold_write (l : list (Z * Packet)) (b : Bot) :
  loop (fold_left (fun b t => write (snd t) b) l b) = loop b.
Proof. revert b. induction l as [| t l IH]; intro b; simpl; [reflexivity | rewrite IH; reflexivity]. Qed.

Lemma loop_place_ingredients (w i : Z) (ings : list Ingredient) (b b' : Bot) :
  place_ingredients w i ings b = Some b' -> loop b' = loop b.
Proof.
  revert i b. induction ings as [| ing t IH]; intros i b; simpl.
  - intro Heq. inversion Heq. reflexivity.
  - destruct (findItem (inventory b) (KName (ing_item ing))) as [[it s]|]; [|discriminate].
    intro Hp. apply IH in Hp. rewrite Hp. reflexivity.
Qed.

Ltac split_matches :=
  repeat match goal with
         | |- context [match ?x with _ => _ end] => destruct x
         end.

Section MiningFacts.
Context `{JsMath}.

Lemma loop_physics_update (b : Bot) : loop (physics_update b) = loop b.
Proof. unfold physics_update. split_matches; reflexivity. Qed.

Lemma loop_combat_update (b : Bot) : loop (combat_update b) = loop b.
Proof. unfold combat_update. split_matches; reflexivity. Qed.

Lemma loop_attackEntity (r : Ref) (b : Bot) : loop (attackEntity r b) = loop b.
Proof. unfold attackEntity. split_matches; reflexivity. Qed.

Lemma loop_jump (b : Bot) : loop (jump b) = loop b.
Proof. unfold jump. split_matches; reflexivity. Qed.

Lemma loop_craft (n : string) (c : number) (b : Bot) : loop (snd (craft n c b)) = loop b.
Proof.
  unfold craft, openCraftingTable, craft_clicks.
  destruct (map_get String.eqb recipes n) as [r|]; [|reflexivity].
  destruct (requiresCraftingTable r && _); [reflexivity|].
  destruct (missing_ingredient _ _ _); [reflexivity|].
  destruct (requiresCraftingTable r).
  - split_matches; reflexivity.
  - destruct (place_ingredients _ _ _ _) as [b1|] eqn:E; [|reflexivity].
    apply loop_place_ingredients in E. simpl. rewrite <- E. reflexivity.
Qed.

Lemma step_loop (o : Op) (b : Bot) :
  blockUpdateListeners (loop (step o b)) = listeners_after o (blockUpdateListeners (loop b)) /\
  settled (loop (step o b)) = settled_after o (blockUpdateListeners (loop b)) (settled (loop b)).
Proof.
  destruct o; simpl.
  - destruct p; simpl; try (unfold on_health; destruct (num_le _ _)); split; reflexivity.
  - unfold advance. rewrite loop_fold_write. simpl. split; reflexivity.
  - rewrite loop_physics_update. split; reflexivity.
  - rewrite loop_combat_update. split; reflexivity.
  - rewrite loop_jump. split; reflexivity.
  - split; reflexivity.
  - rewrite loop_attackEntity. split; reflexivity.
  - unfold attackNearestEntity. destruct (findNearestEntity _ _ _); [rewrite loop_attackEntity|]; split; reflexivity.
  - split; reflexivity.
  - split; reflexivity.
  - unfold selectSlot. destruct (_ || _); simpl; split; reflexivity.
  - rewrite loop_craft. split; reflexivity.
Qed.

End MiningFacts.

Lemma existsb_nat_In (x : nat) (l : list nat) : existsb (Nat.eqb x) l = true <-> In x l.
Proof.
  rewrite existsb_exists. split.
  - intros [y [Hy Heq]]. apply Nat.eqb_eq in Heq. subst. exact Hy.
  - intro Hx. exists x. split; [exact Hx | apply Nat.eqb_refl].
Qed.

Lemma mine_state_pending (pid : nat) (b : Bot) :
  mine_state pid b = Pending <-> ~ In pid (settled (loop b)).
Proof.
  unfold mine_state. rewrite <- existsb_nat_In.
  destruct (existsb (Nat.eqb pid) (settled (loop b))); split; congruence.
Qed.

Lemma mine_state_fulfilled (pid : nat) (b : Bot) :
  mine_state pid b = Fulfilled <-> In pid (settled (loop b)).
Proof.
  unfold mine_state. rewrite <- existsb_nat_In.
  destruct (existsb (Nat.eqb pid) (settled (loop b))); split; congruence.
Qed.

Lemma out_fold_write (l : list (Z * Packet)) (b : Bot) (x : Packet) :
  In x (out b) \/ In x (map snd l) -> In x (out (fold_left (fun b t => write (snd t) b) l b)).
Proof.
  revert b. induction l as [| t l IH]; intros b Hx; simpl in *.
  - destruct Hx as [Hx | []]. exact Hx.
  - apply IH. simpl. rewrite in_app_iff. simpl. tauto.
Qed.

Lemma out_place_ingredients (w i : Z) (ings : list Ingredient) (b b' : Bot) :
  place_ingredients w i ings b = Some b' -> incl (out b) (out b').
Proof.
  revert i b. induction ings as [| ing t IH]; intros i b; simpl.
  - intro Heq. inversion Heq. apply incl_refl.
  - destruct (findItem (inventory b) (KName (ing_item ing))) as [[it s]|]; [|discriminate].
    intros Hp x Hx. apply (IH _ _ Hp). simpl. apply in_or_app. left. exact Hx.
Qed.

Section MiningRuns.
Context `{JsMath}.

Lemma run_cons (o : Op) (os : list Op) (b : Bot) : run (o :: os) b = run os (step o b).
Proof. reflexivity. Qed.

Ltac out_grows := let a := fresh "a" in let Ha := fresh "Ha" in intros a Ha; simpl; rewrite ?in_app_iff; simpl; tauto.

Lemma out_step_grows (o : Op) (b : Bot) : incl (out b) (out (step o b)).
Proof.
  destruct o; simpl.
  - destruct p; simpl; unfold on_health, updateMetadata, on_entity_move; split_matches; out_grows.
  - intros x Hx. unfold advance. apply out_fold_write. left. exact Hx.
  - unfold physics_update, sendPositionUpdate. destruct (negb _); out_grows.
  - unfold combat_update. split_matches; out_grows.
  - unfold jump. destruct (_ && _); out_grows.
  - out_grows.
  - unfold attackEntity. split_matches; out_grows.
  - unfold attackNearestEntity, attackEntity. split_matches; out_grows.
  - out_grows.
  - out_grows.
  - unfold selectSlot. destruct (_ || _); out_grows.
  - unfold craft, openCraftingTable, craft_clicks.
    destruct (map_get String.eqb recipes itemName) as [r|]; [|out_grows].
    destruct (requiresCraftingTable r && _); [out_grows|].
    destruct (missing_ingredient _ _ _); [out_grows|].
    destruct (requiresCraftingTable r).
    + split_matches; out_grows.
    + destruct (place_ingredients _ _ _ _) as [b1|] eqn:E; [|out_grows].
      apply out_place_ingredients in E. intros x Hx. simpl. apply in_or_app. left. apply E. exact Hx.
Qed.

(** Only [advance] moves the clock; no other step drops a timer. *)
Lemma step_timers_kept (o : Op) (b : Bot) :
  (forall ms, o <> OpAdvance ms) ->
  clock (loop (step o b)) = clock (loop b) /\ incl (timers (loop b)) (timers (loop (step o b))).
Proof.
  intro Hna. destruct o; simpl.
  - destruct p; simpl; unfold on_health, updateMetadata, on_entity_move; split_matches; simpl;
      split; try reflexivity; apply incl_refl.
  - exfalso. exact (Hna ms eq_refl).
  - rewrite loop_physics_update. split; [reflexivity | apply incl_refl].
  - rewrite loop_combat_update. split; [reflexivity | apply incl_refl].
  - rewrite loop_jump. split; [reflexivity | apply incl_refl].
  - split; [reflexivity | apply incl_refl].
  - rewrite loop_attackEntity. split; [reflexivity | apply incl_refl].
  - unfold attackNearestEntity. destruct (findNearestEntity _ _ _); [rewrite loop_attackEntity|];
      split; [reflexivity | apply incl_refl | reflexivity | apply incl_refl].
  - split; [reflexivity | apply incl_refl].
  - split; [reflexivity | apply incl_appl, incl_refl].
  - unfold selectSlot. destruct (_ || _); split; [reflexivity | apply incl_refl | reflexivity | apply incl_refl].
  - rewrite loop_craft. split; [reflexivity | apply incl_refl].
Qed.

(** A timer [(d, pk)] not yet due has either run (its packet is written)
    or is still waiting; time passing keeps it so. *)
Lemma step_timer_inv (d : Z) (pk : Packet) (o : Op) (b : Bot) :
  In pk (out b) \/ (In (d, pk) (timers (loop b)) /\ clock (loop b) < d) ->
  In pk (out (step o b)) \/ (In (d, pk) (timers (loop (step o b))) /\ clock (loop (step o b)) < d).
Proof.
  intros [Hout | [Hin Hlt]].
  - left. apply out_step_grows. exact Hout.
  - destruct o; try (destruct (step_timers_kept (OpPacket p) b) as [Hc Ht]; [discriminate|]);
    try (match goal with |- _ \/ (In _ (timers (loop (step ?o b))) /\ _) =>
           destruct (step_timers_kept o b) as [Hc Ht]; [discriminate|] end);
    try (right; rewrite Hc; split; [apply Ht; exact Hin | exact Hlt]).
    simpl. unfold advance.
    destruct (d <=? clock (loop b) + Z.of_N ms) eqn:E.
    + left. apply out_fold_write. right. apply in_map_iff. exists (d, pk). split; [reflexivity|].
      apply filter_In. split; [exact Hin | exact E].
    + right. rewrite loop_fold_write. simpl. split.
      * apply filter_In. split; [exact Hin|]. simpl. rewrite E. reflexivity.
      * apply Z.leb_gt in E. exact E.
Qed.

Lemma run_timer_fires (d : Z) (pk : Packet) (os : list Op) (b : Bot) :
  In pk (out b) \/ (In (d, pk) (timers (loop b)) /\ clock (loop b) < d) ->
  d <= clock (loop (run os b)) -> In pk (out (run os b)).
Proof.
  intros Hinv Hd.
  assert (Hr : In pk (out (run os b)) \/ (In (d, pk) (timers (loop (run os b))) /\ clock (loop (run os b)) < d)).
  { revert b Hinv Hd. induction os as [| o os IH]; intros b Hinv Hd; [exact Hinv|].
    rewrite run_cons in *. apply IH; [apply step_timer_inv; exact Hinv | exact Hd]. }
  destruct Hr as [Hout | [_ Hlt]]; [exact Hout | lia].
Qed.

Lemma settled_step_grows (o : Op) (b : Bot) (x : nat) :
  In x (settled (loop b)) -> In x (settled (loop (step o b))).
Proof.
  intro Hx. rewrite (proj2 (step_loop o b)).
  destruct o as [p| | | | | | | | | | |]; simpl; try exact Hx.
  destruct p; try exact Hx. apply in_or_app. left. exact Hx.
Qed.

Lemma settled_run_grows (os : list Op) (b : Bot) (x : nat) :
  In x (settled (loop b)) -> In x (settled (loop (run os b))).
Proof.
  revert b. induction os as [| o os IH]; intros b Hx; [exact Hx|].
  rewrite run_cons. apply IH. apply settled_step_grows. exact Hx.
Qed.

(** Without a block change at [loc], a promise whose listeners all watch
    [loc] stays pending. *)
Lemma run_stays_pending (pid : nat) (loc : BlockLoc) (os : list Op) (b : Bot) :
  ~ In pid (settled (loop b)) ->
  (forall l, In (pid, l) (blockUpdateListeners (loop b)) -> l = loc) ->
  (forall l, ~ In (OpMineBlock pid l) os) ->
  (forall t, ~ In (OpPacket (InBlockChange loc t)) os) ->
  ~ In pid (settled (loop (run os b))).
Proof.
  revert b. induction os as [| o os IH]; intros b Hs Hl Hmine Hchange; [exact Hs|].
  rewrite run_cons. destruct (step_loop o b) as [HL HS].
  apply IH.
  - rewrite HS. destruct o as [p| | | | | | | | | | |]; simpl; try exact Hs.
    destruct p as [| | | | | | loc' t'| | | | | |]; simpl; try exact Hs.
    intro Hin. apply in_app_or in Hin. destruct Hin as [Hin | Hin]; [exact (Hs Hin)|].
    apply in_map_iff in Hin. destruct Hin as [[p l] [Hp Hin]]. simpl in Hp. subst p.
    apply filter_In in Hin. destruct Hin as [Hin Hloc]. simpl in Hloc.
    apply loc_eqb_spec in Hloc. apply Hl in Hin. subst l. subst loc'.
    apply (Hchange t'). left. reflexivity.
  - intros l Hin. rewrite HL in Hin. apply Hl.
    destruct o as [p| | | | | | | | | pid' loc'| |]; simpl in Hin; try exact Hin.
    + destruct p; simpl in Hin; try exact Hin. apply filter_In in Hin. apply Hin.
    + apply in_app_or in Hin. destruct Hin as [Hin | [Heq | []]]; [exact Hin|].
      inversion Heq; subst. exfalso. apply (Hmine l). left. reflexivity.
  - intros l Hin. apply (Hmine l). right. exact Hin.
  - intros t Hin. apply (Hchange t). right. exact Hin.
Qed.

(** A promise that is settled or still has a listener on [loc] is settled
    once a block change at [loc] has been handled. *)
Lemma run_fulfils (pid : nat) (loc : BlockLoc) (t : Z) (os : list Op) (b : Bot) :
  In pid (settled (loop b)) \/ In (pid, loc) (blockUpdateListeners (loop b)) ->
  In (OpPacket (InBlockChange loc t)) os ->
  In pid (settled (loop (run os b))).
Proof.
  revert b. induction os as [| o os IH]; intros b Hq Hin; [destruct Hin|].
  rewrite run_cons. destruct (step_loop o b) as [HL HS].
  destruct Hin as [Heq | Hin].
  - subst o. apply settled_run_grows. rewrite HS. simpl. apply in_or_app.
    destruct Hq as [Hs | Hl]; [left; exact Hs|].
    right. apply in_map_iff. exists (pid, loc). split; [reflexivity|].
    apply filter_In. split; [exact Hl | apply loc_eqb_refl].
  - apply IH; [| exact Hin].
    destruct Hq as [Hs | Hl]; [left; apply settled_step_grows; exact Hs|].
    rewrite HL, HS.
    destruct o as [p| | | | | | | | | pid' loc'| |]; simpl; try (right; exact Hl).
    + destruct p as [| | | | | | loc' t'| | | | | |]; simpl; try (right; exact Hl).
      destruct (loc_eqb loc loc') eqn:E.
      * left. apply in_or_app. right. apply in_map_iff. exists (pid, loc). split; [reflexivity|].
        apply filter_In. split; [exact Hl | exact E].
      * right. apply filter_In. split; [exact Hl|]. simpl. rewrite E. reflexivity.
    + right. apply in_or_app. left. exact Hl.
Qed.

(** ** C1: when a [mineBlock] promise settles *)

(** C1 (as the code does it). After [mineBlock] on [loc] under a fresh
    promise id, whatever else happens (server packets, elapsed time, ticks,
    other calls): without a block change at exactly [loc] the promise stays
    pending for ever (there is no deadline and no TimedOut outcome); a block
    change reporting air (0) at [loc] fulfils it; and once 1000 ms have
    passed the finish-dig packet has been sent all the same. *)
Theorem mineBlock_settles_on_block_change (b : Bot) (pid : nat) (loc : BlockLoc) (os : list Op) :
  mine_state pid b = Pending ->
  ~ In pid (map fst (blockUpdateListeners (loop b))) ->
  (forall l, ~ In (OpMineBlock pid l) os) ->
  ((forall t, ~ In (OpPacket (InBlockChange loc t)) os) ->
   mine_state pid (run os (mineBlock pid loc b)) = Pending) /\
  (In (OpPacket (InBlockChange loc 0)) os ->
   mine_state pid (run os (mineBlock pid loc b)) = Fulfilled) /\
  (clock (loop b) + 1000 <= clock (loop (run os (mineBlock pid loc b))) ->
   In (PBlockDig 2 loc 1) (out (run os (mineBlock pid loc b)))).
Proof.
  intros Hpend Hfresh Hmine. apply mine_state_pending in Hpend. split; [|split].
  - intro Hno. apply mine_state_pending.
    apply (run_stays_pending pid loc); [exact Hpend | | exact Hmine | exact Hno].
    simpl. intros l Hin. apply in_app_or in Hin. destruct Hin as [Hin | [Heq | []]].
    + exfalso. apply Hfresh. apply in_map_iff. exists (pid, l). auto.
    + inversion Heq. reflexivity.
  - intro Hin. apply mine_state_fulfilled. apply (run_fulfils pid loc 0); [| exact Hin].
    right. simpl. apply in_or_app. right. left. reflexivity.
  - intro Hc. apply (run_timer_fires (clock (loop b) + 1000)); [| exact Hc].
    right. unfold mineBlock, getDigTime. simpl. split; [| lia].
    apply in_or_app. right. left. reflexivity.
Qed.

(** ** C2: a second [mineBlock] on the same coordinate *)

(** C2 (as the code does it). In any state where an earlier [mineBlock]
    [p1] on [loc] is still listening, a second [mineBlock] [p2] on [loc] is
    not refused: it writes another start-dig packet, adds its listener after
    the existing ones (which stay) and settles nothing; after any further
    events, once a block change at [loc] has been handled both promises are
    fulfilled. *)
Theorem mineBlock_same_coordinate_twice (b : Bot) (p1 p2 : nat) (loc : BlockLoc) :
  In (p1, loc) (blockUpdateListeners (loop b)) ->
  out (mineBlock p2 loc b) = out b ++ [PBlockDig 0 loc 1] /\
  blockUpdateListeners (loop (mineBlock p2 loc b)) = blockUpdateListeners (loop b) ++ [(p2, loc)] /\
  settled (loop (mineBlock p2 loc b)) = settled (loop b) /\
  (forall os t, In (OpPacket (InBlockChange loc t)) os ->
     mine_state p1 (run os (mineBlock p2 loc b)) = Fulfilled /\
     mine_state p2 (run os (mineBlock p2 loc b)) = Fulfilled).
Proof.
  intro H1. split; [reflexivity|]. split; [reflexivity|]. split; [reflexivity|].
  intros os t Hin. split; apply mine_state_fulfilled; apply (run_fulfils _ loc t); try exact Hin;
    right; simpl; apply in_or_app; [left; exact H1 | right; left; reflexivity].
Qed.

End MiningRuns.

Lemma mineBlock_settles_on_block_change_witness :
  mine_state 1 (run [OpAdvance 5000%N; OpPacket (InBlockChange origin_loc 0)]
                    (mineBlock 1 origin_loc initial_bot)) = Fulfilled /\
  In (PBlockDig 2 origin_loc 1)
     (out (run [OpAdvance 5000%N; OpPacket (InBlockChange origin_loc 0)]
               (mineBlock 1 origin_loc initial_bot))).
Proof.
  destruct (mineBlock_settles_on_block_change initial_bot 1 origin_loc
              [OpAdvance 5000%N; OpPacket (InBlockChange origin_loc 0)]) as [_ [H2 H3]].
  - reflexivity.
  - simpl. tauto.
  - intros l [Hl | [Hl | []]]; discriminate.
  - split; [apply H2; right; left; reflexivity | apply H3; vm_compute; congruence].
Defined.

(** A first [mineBlock] 1 on the origin, a second one 2 on it after time
    has passed and an unrelated block change. *)
Lemma mineBlock_same_coordinate_twice_witness :
  let b := run [OpMineBlock 1 origin_loc; OpAdvance 1000%N;
                OpPacket (InBlockChange (mkLoc 1 64 0) 0)] initial_bot in
  mine_state 1 (run [OpAdvance 5%N; OpPacket (InBlockChange origin_loc 0)]
                    (mineBlock 2 origin_loc b)) = Fulfilled /\
  mine_state 2 (run [OpAdvance 5%N; OpPacket (InBlockChange origin_loc 0)]
                    (mineBlock 2 origin_loc b)) = Fulfilled.
Proof.
  intro b.
  apply (proj2 (proj2 (proj2 (mineBlock_same_coordinate_twice b 1 2 origin_loc
                                 ltac:(vm_compute; left; reflexivity))))
           _ 0).
  right. left. reflexivity.
Defined.

(** C1, refuted: a [mineBlock] with no block change at its coordinate is
    still pending after 1000 s, past the finish-dig packet; it never
    resolves as timed out. *)
Lemma mineBlock_never_times_out :
  let b := run [OpMineBlock 1 origin_loc; OpAdvance 1000000%N;
                OpPacket (InBlockChange (mkLoc 1 64 0) 0)] initial_bot in
  mine_state 1 b = Pending /\
  out b = [PBlockDig 0 origin_loc 1; PBlockDig 2 origin_loc 1].
Proof. split; reflexivity. Qed.

(** C2, refuted: the second [mineBlock] on the same coordinate proceeds. *)
Lemma second_mineBlock_same_coordinate_proceeds :
  let b := run [OpMineBlock 1 origin_loc; OpMineBlock 2 origin_loc] initial_bot in
  out b = [PBlockDig 0 origin_loc 1; PBlockDig 0 origin_loc 1] /\
  blockUpdateListeners (loop b) = [(1%nat, origin_loc); (2%nat, origin_loc)].
Proof. split; reflexivity. Qed.

(** ** Cooldowns *)

Ltac split_matches_eqn :=
  repeat match goal with
         | |- context [match ?x with _ => _ end] => let E := fresh "E" in destruct x eqn:E
         end.

Lemma fold_write_fields (l : list (Z * Packet)) (b : Bot) :
  physics (fold_left (fun b t => write (snd t) b) l b) = physics b /\
  combat (fold_left (fun b t => write (snd t) b) l b) = combat b /\
  tracker (fold_left (fun b t => write (snd t) b) l b) = tracker b.
Proof.
  revert b. induction l as [| t l IH]; intro b; simpl; [auto|].
  destruct (IH (write (snd t) b)) as [-> [-> ->]]. auto.
Qed.

Lemma place_ingredients_fields (w i : Z) (ings : list Ingredient) (b b' : Bot) :
  place_ingredients w i ings b = Some b' ->
  physics b' = physics b /\ combat b' = combat b /\ tracker b' = tracker b.
Proof.
  revert i b. induction ings as [| ing t IH]; intros i b; simpl.
  - intro Heq. inversion Heq. auto.
  - destruct (findItem (inventory b) (KName (ing_item ing))) as [[it s]|]; [|discriminate].
    intro Hp. apply IH in Hp. exact Hp.
Qed.

Section Cooldowns.
Context `{JsMath}.

Lemma craft_fields (n : string) (c : number) (b : Bot) :
  physics (snd (craft n c b)) = physics b /\ combat (snd (craft n c b)) = combat b /\
  tracker (snd (craft n c b)) = tracker b.
Proof.
  unfold craft, openCraftingTable, craft_clicks.
  destruct (map_get String.eqb recipes n) as [r|]; [|auto].
  destruct (requiresCraftingTable r && _); [auto|].
  destruct (missing_ingredient _ _ _); [auto|].
  destruct (requiresCraftingTable r).
  - split_matches; auto.
  - destruct (place_ingredients _ _ _ _) as [b1|] eqn:E; [|auto].
    apply place_ingredients_fields in E. simpl. exact E.
Qed.

Lemma handle_cooldown_fields (p : Inbound) (b : Bot) :
  physics (handle p b) = physics b /\ combat (handle p b) = combat b.
Proof. destruct p; simpl; try (unfold on_health; destruct (num_le _ _)); auto. Qed.

Lemma combat_update_physics (b : Bot) : physics (combat_update b) = physics b.
Proof. unfold combat_update. split_matches; reflexivity. Qed.

Lemma physics_update_combat (b : Bot) :
  combat (physics_update b) = combat b /\ tracker (physics_update b) = tracker b /\
  connected (agent (physics_update b)) = connected (agent b).
Proof. unfold physics_update. split_matches; auto. Qed.

Lemma step_cooldowns_ok (o : Op) (b : Bot) : cooldowns_ok b -> cooldowns_ok (step o b).
Proof.
  unfold cooldowns_ok. intros [Hj Ha].
  destruct o; simpl.
  - destruct (handle_cooldown_fields p b) as [-> ->]. auto.
  - unfold advance. rewrite (proj1 (fold_write_fields _ _)), (proj1 (proj2 (fold_write_fields _ _))).
    simpl. auto.
  - unfold physics_update. split_matches_eqn; simpl; lia.
  - rewrite combat_update_physics. split; [exact Hj|].
    unfold combat_update. split_matches_eqn; simpl; lia.
  - unfold jump. split_matches_eqn; simpl; auto; lia.
  - auto.
  - unfold attackEntity. split_matches; simpl; auto.
  - unfold attackNearestEntity, attackEntity. split_matches; simpl; auto.
  - auto.
  - auto.
  - unfold selectSlot. split_matches; simpl; auto.
  - destruct (craft_fields itemName count b) as [-> [-> _]]. auto.
Qed.

(** C3. Along every run from a fresh bot (any interleaving of physics and
    combat ticks, jumps, attacks, server packets and other calls), the jump
    cooldown and the attack cooldown are never negative. *)
Theorem cooldowns_never_negative (os : list Op) :
  0 <= jumpCooldown (physics (run os initial_bot)) /\
  0 <= attackCooldown (combat (run os initial_bot)).
Proof.
  change (cooldowns_ok (run os initial_bot)).
  assert (Hinit : cooldowns_ok initial_bot) by (split; simpl; lia).
  revert Hinit. generalize initial_bot.
  induction os as [| o os IH]; intros b Hb; [exact Hb|].
  rewrite run_cons. apply IH. apply step_cooldowns_ok. exact Hb.
Qed.

End Cooldowns.

Section TickCooldowns.
Context `{JsMath}.

(** C4 (as the code does it). On a tick of a connected bot, a positive jump
    cooldown drops by exactly one; a positive attack cooldown drops by one
    only when, after the physics step, the combat target is still tracked and
    not farther than 3, and is left unchanged otherwise (no target, target
    gone, target farther than 3). *)
Theorem tick_cooldowns (b : Bot) :
  connected (agent b) = true ->
  (0 < jumpCooldown (physics b) -> jumpCooldown (physics (tick b)) = jumpCooldown (physics b) - 1) /\
  (0 < attackCooldown (combat b) ->
   attackCooldown (combat (tick b))
   = if in_strike_range (physics_update b) then attackCooldown (combat b) - 1
     else attackCooldown (combat b)).
Proof.
  intro Hc. unfold tick. rewrite combat_update_physics.
  destruct (physics_update_combat b) as [Hcomb [_ Hconn]].
  split.
  - intro Hj. unfold physics_update. rewrite Hc. simpl.
    destruct (0 <? jumpCooldown (physics b)) eqn:E; simpl; [reflexivity|].
    apply Z.ltb_ge in E. lia.
  - intro Ha. unfold combat_update, in_strike_range.
    rewrite Hconn, Hc, Hcomb. simpl.
    split_matches_eqn; simpl; try rewrite Hcomb; try lia.
Qed.

End TickCooldowns.

Lemma tick_cooldowns_witness :
  attackCooldown (combat (tick struck_then_stopped))
  = if in_strike_range (physics_update struck_then_stopped)
    then attackCooldown (combat struck_then_stopped) - 1
    else attackCooldown (combat struck_then_stopped).
Proof.
  apply (proj2 (tick_cooldowns struck_then_stopped eq_refl)).
  vm_compute. reflexivity.
Defined.

(** C4, refuted: a positive attack cooldown of a connected bot without a
    combat target is not decremented by a tick. *)
Lemma tick_keeps_attack_cooldown_without_target :
  connected (agent struck_then_stopped) = true /\
  attackCooldown (combat struck_then_stopped) = 10 /\
  attackCooldown (combat (tick struck_then_stopped)) = 10.
Proof. vm_compute. auto. Qed.

(** ** Entity tracking *)

Lemma map_set_In_Z {V : Type} (m : jsmap Z V) (k k' : Z) (v v' : V) :
  In (k', v') (map_set Z.eqb m k v) -> In (k', v') m \/ (k' = k /\ v' = v).
Proof.
  induction m as [| [k0 v0] t IH]; simpl.
  - intros [Heq | []]. inversion Heq. auto.
  - destruct (Z.eqb k0 k) eqn:E.
    + apply Z.eqb_eq in E. subst k0. intros [Heq | Hin].
      * inversion Heq. auto.
      * auto.
    + intros [Heq | Hin]; [auto|]. destruct (IH Hin) as [H1 | H1]; auto.
Qed.

Lemma map_get_set_same_Z {V : Type} (m : jsmap Z V) (k : Z) (v : V) :
  map_get Z.eqb (map_set Z.eqb m k v) k = Some v.
Proof.
  induction m as [| [k0 v0] t IH]; simpl.
  - rewrite Z.eqb_refl. reflexivity.
  - destruct (Z.eqb k0 k) eqn:E; simpl; rewrite E; [reflexivity | exact IH].
Qed.

Lemma map_get_In_Z {V : Type} (m : jsmap Z V) (k : Z) (v : V) :
  map_get Z.eqb m k = Some v -> In (k, v) m.
Proof.
  induction m as [| [k0 v0] t IH]; simpl; [discriminate|].
  destruct (Z.eqb k0 k) eqn:E.
  - apply Z.eqb_eq in E. subst. intro Heq. inversion Heq. auto.
  - auto.
Qed.


Lemma destroy_In (ids : list Z) (t : TrackerS) (k : Z) (r : Ref) :
  (In (k, r) (entities (on_entity_destroy ids t)) <-> In (k, r) (entities t) /\ ~ In k ids) /\
  (In (k, r) (players (on_entity_destroy ids t)) <-> In (k, r) (players t) /\ ~ In k ids) /\
  objects (on_entity_destroy ids t) = objects t.
Proof.
  unfold on_entity_destroy. revert t. induction ids as [| id ids IH]; intro t; simpl.
  - tauto.
  - destruct (IH (mkTracker (objects t) (map_delete Z.eqb (entities t) id)
                            (map_delete Z.eqb (players t) id))) as [He [Hp Ho]].
    rewrite He, Hp, Ho. simpl. unfold map_delete. rewrite !filter_In. simpl.
    rewrite !negb_true_iff, !Z.eqb_neq. intuition congruence.
Qed.


Lemma heap_update_id (objs : list Entity) (r i : Ref) (f : Entity -> Entity) (e : Entity) :
  (forall x, ent_id (f x) = ent_id x) ->
  nth_error objs i = Some e ->
  exists e', nth_error (heap_update objs r f) i = Some e' /\ ent_id e' = ent_id e.
Proof.
  intro Hf. revert r i. induction objs as [| x t IH]; intros r i; [destruct i; discriminate|].
  destruct r as [|r], i as [|i]; simpl; intro Hi.
  - inversion Hi; subst. eauto.
  - eauto.
  - inversion Hi; subst. eauto.
  - apply IH. exact Hi.
Qed.

Lemma nth_error_app_old (objs : list Entity) (e e' : Entity) (r : Ref) :
  nth_error objs r = Some e -> nth_error (objs ++ [e']) r = Some e.
Proof.
  intro H. rewrite nth_error_app1; [exact H|]. apply nth_error_Some. congruence.
Qed.

Lemma tracker_ok_alloc (t : TrackerS) (id : Z) (e : Entity) (m : jsmap Z Ref) :
  tracker_ok t -> ent_id e = id ->
  (forall k r, In (k, r) m -> In (k, r) (entities t) \/ (k = id /\ r = length (objects t))) ->
  forall k r, In (k, r) m -> exists e', nth_error (objects t ++ [e]) r = Some e' /\ ent_id e' = k.
Proof.
  intros Hok Hid Hm k r Hin. destruct (Hm k r Hin) as [Hold | [-> ->]].
  - destruct (Hok k r Hold) as [e' [He' Hk]]. exists e'. split; [|exact Hk].
    apply nth_error_app_old. exact He'.
  - exists e. split; [|exact Hid]. rewrite nth_error_app2; [|lia].
    rewrite Nat.sub_diag. reflexivity.
Qed.

Lemma nth_error_heap_update (objs : list Entity) (r i : Ref) (f : Entity -> Entity) :
  nth_error (heap_update objs r f) i =
  if Nat.eqb i r then option_map f (nth_error objs i) else nth_error objs i.
Proof.
  revert r i. induction objs as [| e t IH]; intros r i.
  - simpl. destruct (Nat.eqb i r); destruct i; reflexivity.
  - destruct r as [|r], i as [|i]; simpl; try reflexivity.
    rewrite IH. reflexivity.
Qed.

Section Tracking.
Context `{JsMath}.

Lemma tracker_step_not_packet (o : Op) (b : Bot) :
  (forall p, o <> OpPacket p) -> tracker (step o b) = tracker b.
Proof.
  intro Hnp. destruct o; simpl.
  - exfalso. exact (Hnp p eq_refl).
  - unfold advance. rewrite (proj2 (proj2 (fold_write_fields _ _))). reflexivity.
  - apply physics_update_combat.
  - unfold combat_update. split_matches; reflexivity.
  - unfold jump. split_matches; reflexivity.
  - reflexivity.
  - unfold attackEntity. split_matches; reflexivity.
  - unfold attackNearestEntity, attackEntity. split_matches; reflexivity.
  - reflexivity.
  - reflexivity.
  - unfold selectSlot. split_matches; reflexivity.
  - apply craft_fields.
Qed.


Lemma handle_tracker_ok (p : Inbound) (b : Bot) :
  tracker_ok (tracker b) -> tracker_ok (tracker (handle p b)).
Proof.
  intro Hok. destruct p; simpl; try (unfold on_health; destruct (num_le _ _)); simpl; try exact Hok.
  - unfold updateMetadata. destruct (map_get _ _ _) as [r0|]; [|exact Hok].
    intros k r Hin. destruct (Hok k r Hin) as [e [He Hk]].
    destruct (heap_update_id (objects (tracker b)) r0 r (set_ent_metadata metadata) e)
      as [e' [He' Hk']]; [reflexivity | exact He |].
    exists e'. split; [exact He' | congruence].
  - unfold on_spawn_entity. intros k r Hin.
    apply (tracker_ok_alloc (tracker b) entityId _ (map_set Z.eqb (entities (tracker b)) entityId
             (length (objects (tracker b))))); auto.
    intros k' r' Hin'. apply map_set_In_Z in Hin'. tauto.
  - unfold on_spawn_player. rewrite map_get_set_same_Z. intros k r Hin.
    apply (tracker_ok_alloc (tracker b) entityId _ (map_set Z.eqb (entities (tracker b)) entityId
             (length (objects (tracker b))))); auto.
    intros k' r' Hin'. apply map_set_In_Z in Hin'. tauto.
  - intros k r Hin. destruct (destroy_In entityIds (tracker b) k r) as [He [_ Ho]].
    rewrite Ho. apply Hok. apply He. exact Hin.
  - unfold on_entity_move. destruct (map_get _ _ _) as [r0|]; [|exact Hok].
    intros k r Hin. destruct (Hok k r Hin) as [e [He Hk]].
    destruct (heap_update_id (objects (tracker b)) r0 r
                (fun e => set_ent_position (add (ent_position e)
                   (ArgNumbers (num_mul dX (Num (1 # 32))) (num_mul dY (Num (1 # 32)))
                               (num_mul dZ (Num (1 # 32))))) e) e)
      as [e' [He' Hk']]; [reflexivity | exact He |].
    exists e'. split; [exact He' | congruence].
Qed.

Lemma run_tracker_ok (os : list Op) : tracker_ok (tracker (run os initial_bot)).
Proof.
  assert (Hinit : tracker_ok (tracker initial_bot)) by (intros k r []).
  revert Hinit. generalize initial_bot.
  induction os as [| o os IH]; intros b Hb; [exact Hb|].
  rewrite run_cons. apply IH.
  destruct o; try (rewrite tracker_step_not_packet; [exact Hb | discriminate]).
  apply handle_tracker_ok. exact Hb.
Qed.







End Tracking.



Lemma num_lt_irrefl (a : number) : num_lt a a = false.
Proof.
  destruct a as [x| |[]]; simpl; try reflexivity.
  unfold Qlt_bool. apply negb_false_iff. apply Qle_bool_iff. apply Qle_refl.
Qed.

Lemma num_lt_trans (a b c : number) :
  num_lt a b = true -> num_lt b c = true -> num_lt a c = true.
Proof.
  destruct a as [x| |[]], b as [y| |[]], c as [z| |[]]; simpl; try discriminate; auto.
  rewrite !Qlt_bool_iff. apply Qlt_trans.
Qed.

Lemma fold_left_ext' {A B : Type} (f g : A -> B -> A) (l : list B) (a : A) :
  (forall x y, f x y = g x y) -> fold_left f l a = fold_left g l a.
Proof.
  intro Hfg. revert a. induction l as [| y l IH]; intro a; simpl; [reflexivity|].
  rewrite Hfg. apply IH.
Qed.

Lemma keep_nearest_spec (cand : Ref -> option number) (l : list Ref) (acc : option Ref * number) :
  (forall r d, In r l -> cand r = Some d ->
     num_lt d (snd (fold_left (keep_nearest cand) l acc)) = false) /\
  (fold_left (keep_nearest cand) l acc = acc \/
   exists r, fst (fold_left (keep_nearest cand) l acc) = Some r /\ In r l /\
             cand r = Some (snd (fold_left (keep_nearest cand) l acc)) /\
             num_lt (snd (fold_left (keep_nearest cand) l acc)) (snd acc) = true).
Proof.
  revert acc. induction l as [| x l IH]; intro acc; simpl.
  - split; [intros r d [] | left; reflexivity].
  - set (acc1 := keep_nearest cand acc x).
    destruct (IH acc1) as [P1 P2].
    set (res := fold_left (keep_nearest cand) l acc1) in *.
    assert (Hle : snd res = snd acc1 \/ num_lt (snd res) (snd acc1) = true).
    { destruct P2 as [-> | [r [_ [_ [_ Hlt]]]]]; auto. }
    assert (Hacc1 : (acc1 = acc) \/
                    (exists d, cand x = Some d /\ num_lt d (snd acc) = true /\ acc1 = (Some x, d))).
    { unfold acc1, keep_nearest. destruct (cand x) as [d|]; [|auto].
      destruct (num_lt d (snd acc)) eqn:E; [right; eauto | left; reflexivity]. }
    split.
    + intros r d [<- | Hin] Hc; [| exact (P1 r d Hin Hc)].
      assert (Hd1 : num_lt d (snd acc1) = false).
      { unfold acc1, keep_nearest. rewrite Hc.
        destruct (num_lt d (snd acc)) eqn:E; simpl; [apply num_lt_irrefl | exact E]. }
      destruct (num_lt d (snd res)) eqn:E; [|reflexivity].
      destruct Hle as [Heq | Hlt]; [rewrite Heq in E; congruence|].
      rewrite (num_lt_trans _ _ _ E Hlt) in Hd1. discriminate.
    + destruct P2 as [Hres | [r [Hr [Hin [Hc Hlt]]]]].
      * rewrite Hres. destruct Hacc1 as [-> | [d [Hc [Hlt ->]]]]; [left; reflexivity|].
        right. exists x. simpl. auto.
      * right. exists r. split; [exact Hr|]. split; [right; exact Hin|]. split; [exact Hc|].
        destruct Hacc1 as [Heq | [d [_ [Hlt' Heq]]]].
        -- rewrite <- Heq. exact Hlt.
        -- rewrite Heq in Hlt. simpl in Hlt. exact (num_lt_trans _ _ _ Hlt Hlt').
Qed.

Lemma keep_nearest_some (cand : Ref -> option number) (l : list Ref) (md : number) (r : Ref) :
  fst (fold_left (keep_nearest cand) l (None, md)) = Some r ->
  In r l /\ exists d, cand r = Some d /\ num_lt d md = true /\
    forall r' d', In r' l -> cand r' = Some d' -> num_lt d' d = false.
Proof.
  intro Hf. destruct (keep_nearest_spec cand l (None, md)) as [P1 [Heq | [r' [Hr [Hin [Hc Hlt]]]]]].
  - rewrite Heq in Hf. discriminate.
  - rewrite Hf in Hr. inversion Hr; subst r'. split; [exact Hin|].
    eexists. split; [exact Hc|]. split; [exact Hlt|]. exact P1.
Qed.

Lemma keep_nearest_none (cand : Ref -> option number) (l : list Ref) (md : number) :
  fst (fold_left (keep_nearest cand) l (None, md)) = None <->
  forall r d, In r l -> cand r = Some d -> num_lt d md = false.
Proof.
  destruct (keep_nearest_spec cand l (None, md)) as [P1 [Heq | [r [Hr [Hin [Hc Hlt]]]]]].
  - rewrite Heq. simpl. split; [| reflexivity]. intros _ r d Hin Hc.
    specialize (P1 r d Hin Hc). rewrite Heq in P1. exact P1.
  - rewrite Hr. split; [discriminate|]. intro Hall. simpl in Hlt.
    rewrite (Hall r _ Hin Hc) in Hlt. discriminate.
Qed.

Section NearestFacts.
Context `{JsMath}.

Lemma findNearestEntity_keep (type : TypeArg) (md : number) (b : Bot) :
  findNearestEntity type md b =
  fst (fold_left (keep_nearest (entity_cand (type_list type) (position (agent b)) (objects (tracker b))))
                 (map_values (entities (tracker b))) (None, md)).
Proof.
  unfold findNearestEntity. f_equal. apply fold_left_ext'. intros acc r.
  unfold nearest_step, keep_nearest, entity_cand.
  destruct (nth_error _ r) as [e|]; [|reflexivity].
  destruct type; simpl; destruct (includes _ _); reflexivity.
Qed.

Lemma findNearestPlayer_keep (md : number) (b : Bot) :
  findNearestPlayer md b =
  fst (fold_left (keep_nearest (player_cand (position (agent b)) (objects (tracker b))))
                 (map_values (players (tracker b))) (None, md)).
Proof.
  unfold findNearestPlayer. f_equal. apply fold_left_ext'. intros acc r.
  unfold nearest_player_step, keep_nearest, player_cand.
  destruct (nth_error _ r) as [e|]; reflexivity.
Qed.

Lemma in_map_values {V : Type} (m : jsmap Z V) (v : V) :
  In v (map_values m) <-> exists k, In (k, v) m.
Proof.
  unfold map_values. rewrite in_map_iff. split.
  - intros [[k v'] [Hv Hin]]. simpl in Hv. subst. eauto.
  - intros [k Hin]. exists (k, v). auto.
Qed.

(** X9. When [findNearestEntity] returns an object, that object is tracked in
    [entities], has one of the requested types, is closer than
    [maxDistance], and no tracked object of those types is strictly closer. *)
Theorem findNearestEntity_nearest (type : TypeArg) (maxDistance : number) (b : Bot) (r : Ref) :
  findNearestEntity type maxDistance b = Some r ->
  exists k e,
    In (k, r) (entities (tracker b)) /\
    nth_error (objects (tracker b)) r = Some e /\
    includes (type_list type) (ent_type e) = true /\
    num_lt (distanceTo (ent_position e) (position (agent b))) maxDistance = true /\
    (forall k' r' e', In (k', r') (entities (tracker b)) ->
       nth_error (objects (tracker b)) r' = Some e' ->
       includes (type_list type) (ent_type e') = true ->
       num_lt (distanceTo (ent_position e') (position (agent b)))
              (distanceTo (ent_position e) (position (agent b))) = false).
Proof.
  rewrite findNearestEntity_keep. intro Hf.
  apply keep_nearest_some in Hf. destruct Hf as [Hin [d [Hc [Hlt Hmin]]]].
  apply in_map_values in Hin. destruct Hin as [k Hin].
  unfold entity_cand in Hc. destruct (nth_error _ r) as [e|] eqn:He; [|discriminate].
  destruct (includes _ (ent_type e)) eqn:Hi; [|discriminate]. inversion Hc; subst d.
  exists k, e. repeat split; auto.
  intros k' r' e' Hin' He' Hi'. apply (Hmin r').
  - apply in_map_values. eauto.
  - unfold entity_cand. rewrite He', Hi'. reflexivity.
Qed.

(** X10. [findNearestEntity] returns [null] exactly when no tracked object of
    the requested types is closer than [maxDistance]. *)
Theorem findNearestEntity_none (type : TypeArg) (maxDistance : number) (b : Bot) :
  findNearestEntity type maxDistance b = None <->
  (forall k r e, In (k, r) (entities (tracker b)) -> nth_error (objects (tracker b)) r = Some e ->
     includes (type_list type) (ent_type e) = true ->
     num_lt (distanceTo (ent_position e) (position (agent b))) maxDistance = false).
Proof.
  rewrite findNearestEntity_keep, keep_nearest_none. split.
  - intros Hall k r e Hin He Hi. apply (Hall r).
    + apply in_map_values. eauto.
    + unfold entity_cand. rewrite He, Hi. reflexivity.
  - intros Hall r d Hin Hc. apply in_map_values in Hin. destruct Hin as [k Hin].
    unfold entity_cand in Hc. destruct (nth_error _ r) as [e|] eqn:He; [|discriminate].
    destruct (includes _ (ent_type e)) eqn:Hi; [|discriminate]. inversion Hc; subst d.
    exact (Hall k r e Hin He Hi).
Qed.

(** X11. When [findNearestPlayer] returns an object, it is tracked in
    [players], is closer than [maxDistance], and no tracked player is
    strictly closer. *)
Theorem findNearestPlayer_nearest (maxDistance : number) (b : Bot) (r : Ref) :
  findNearestPlayer maxDistance b = Some r ->
  exists k e,
    In (k, r) (players (tracker b)) /\
    nth_error (objects (tracker b)) r = Some e /\
    num_lt (distanceTo (ent_position e) (position (agent b))) maxDistance = true /\
    (forall k' r' e', In (k', r') (players (tracker b)) ->
       nth_error (objects (tracker b)) r' = Some e' ->
       num_lt (distanceTo (ent_position e') (position (agent b)))
              (distanceTo (ent_position e) (position (agent b))) = false).
Proof.
  rewrite findNearestPlayer_keep. intro Hf.
  apply keep_nearest_some in Hf. destruct Hf as [Hin [d [Hc [Hlt Hmin]]]].
  apply in_map_values in Hin. destruct Hin as [k Hin].
  unfold player_cand in Hc. destruct (nth_error _ r) as [e|] eqn:He; [|discriminate].
  inversion Hc; subst d.
  exists k, e. repeat split; auto.
  intros k' r' e' Hin' He'. apply (Hmin r').
  - apply in_map_values. eauto.
  - unfold player_cand. rewrite He'. reflexivity.
Qed.

(** X12. [findNearestPlayer] returns [null] exactly when no tracked player is
    closer than [maxDistance]. *)
Theorem findNearestPlayer_none (maxDistance : number) (b : Bot) :
  findNearestPlayer maxDistance b = None <->
  (forall k r e, In (k, r) (players (tracker b)) -> nth_error (objects (tracker b)) r = Some e ->
     num_lt (distanceTo (ent_position e) (position (agent b))) maxDistance = false).
Proof.
  rewrite findNearestPlayer_keep, keep_nearest_none. split.
  - intros Hall k r e Hin He. apply (Hall r).
    + apply in_map_values. eauto.
    + unfold player_cand. rewrite He. reflexivity.
  - intros Hall r d Hin Hc. apply in_map_values in Hin. destruct Hin as [k Hin].
    unfold player_cand in Hc. destruct (nth_error _ r) as [e|] eqn:He; [|discriminate].
    inversion Hc; subst d. exact (Hall k r e Hin He).
Qed.

End NearestFacts.

(** findItem *)
Lemma findItem_from_shift (i : nat) (l : list (option Item)) (k : ItemKey) :
  findItem_from (S i) l k = option_map (fun p => (fst p, S (snd p))) (findItem_from i l k).
Proof.
  revert i. induction l as [| [x|] t IH]; intro i; simpl; [reflexivity| |apply IH].
  destruct (item_matches x k); [reflexivity | apply IH].
Qed.

Lemma findItem_spec (inv : InventoryS) (k : ItemKey) :
  (forall it s, findItem inv k = Some (it, s) <->
     nth_error (slots inv) s = Some (Some it) /\ item_matches it k = true /\
     forall j it', (j < s)%nat -> nth_error (slots inv) j = Some (Some it') ->
                   item_matches it' k = false) /\
  (findItem inv k = None <->
     forall j it, nth_error (slots inv) j = Some (Some it) -> item_matches it k = false).
Proof.
  unfold findItem. generalize (slots inv) as l. induction l as [| x t [IH1 IH2]]; simpl.
  - split.
    + intros it s. split; [discriminate|]. intros [Hs _]. destruct s; discriminate.
    + split; [|reflexivity]. intros _ j it Hj. destruct j; discriminate.
  - assert (Hrest : findItem_from 1 t k = option_map (fun p => (fst p, S (snd p))) (findItem_from 0 t k))
      by apply findItem_from_shift.
    assert (Hskip : (forall y, x = Some y -> item_matches y k = false) ->
      (forall it s, (match x with
                    | Some it0 => if item_matches it0 k then Some (it0, 0%nat) else findItem_from 1 t k
                    | None => findItem_from 1 t k end) = Some (it, s) <->
         nth_error (x :: t) s = Some (Some it) /\ item_matches it k = true /\
         (forall j it', (j < s)%nat -> nth_error (x :: t) j = Some (Some it') -> item_matches it' k = false)) /\
      ((match x with
        | Some it0 => if item_matches it0 k then Some (it0, 0%nat) else findItem_from 1 t k
        | None => findItem_from 1 t k end) = None <->
         forall j it, nth_error (x :: t) j = Some (Some it) -> item_matches it k = false)).
    { intro Hx. assert (Hm : match x with
                    | Some it0 => if item_matches it0 k then Some (it0, 0%nat) else findItem_from 1 t k
                    | None => findItem_from 1 t k end = findItem_from 1 t k).
      { destruct x as [y|]; [rewrite (Hx y eq_refl)|]; reflexivity. }
      rewrite Hm, Hrest. split.
      - intros it s. split.
        + destruct (findItem_from 0 t k) as [[it0 s0]|] eqn:E; simpl; [|discriminate].
          intro Heq. inversion Heq; subst it0 s.
          destruct (proj1 (IH1 it s0) eq_refl) as [Hn [Hmt Hmin]].
          split; [exact Hn|]. split; [exact Hmt|].
          intros [|j] it' Hj Hn'; simpl in Hn'.
          * inversion Hn'; subst x. apply Hx. reflexivity.
          * apply (Hmin j it'); [lia | exact Hn'].
        + intros [Hn [Hmt Hmin]]. destruct s as [|s]; simpl in Hn.
          * inversion Hn; subst x. rewrite (Hx it eq_refl) in Hmt. discriminate.
          * assert (E : findItem_from 0 t k = Some (it, s)).
            { apply IH1. split; [exact Hn|]. split; [exact Hmt|].
              intros j it' Hj Hn'. apply (Hmin (S j) it'); [lia | exact Hn']. }
            rewrite E. reflexivity.
      - split.
        + destruct (findItem_from 0 t k) as [[it0 s0]|] eqn:E; simpl; [discriminate|].
          intros _ [|j] it Hj; simpl in Hj.
          * inversion Hj; subst x. apply Hx. reflexivity.
          * apply (proj1 IH2 eq_refl j it Hj).
        + intro Hall. assert (E : findItem_from 0 t k = None).
          { apply IH2. intros j it Hj. apply (Hall (S j) it Hj). }
          rewrite E. reflexivity. }
    destruct x as [y|]; [destruct (item_matches y k) eqn:Ey|].
    + split.
      * intros it s. split.
        -- intro Heq. inversion Heq; subst. split; [reflexivity|]. split; [exact Ey|].
           intros j it' Hj. lia.
        -- intros [Hn [Hmt Hmin]]. destruct s as [|s]; simpl in Hn.
           ++ inversion Hn. reflexivity.
           ++ exfalso. rewrite (Hmin O y) in Ey; [discriminate | lia | reflexivity].
      * split; [discriminate|]. intro Hall. rewrite (Hall O y eq_refl) in Ey. discriminate.
    + apply Hskip. intros y' Hy. inversion Hy; subst. exact Ey.
    + apply Hskip. discriminate.
Qed.

(** X1. [findItem] returns the first occupied slot whose item matches the key,
    with that slot's index; it returns [null] exactly when no occupied slot
    matches. *)
Theorem findItem_first_match (inv : InventoryS) (k : ItemKey) :
  (forall it s, findItem inv k = Some (it, s) <->
     nth_error (slots inv) s = Some (Some it) /\ item_matches it k = true /\
     forall j it', (j < s)%nat -> nth_error (slots inv) j = Some (Some it') ->
                   item_matches it' k = false) /\
  (findItem inv k = None <->
     forall j it, nth_error (slots inv) j = Some (Some it) -> item_matches it k = false).
Proof. exact (findItem_spec inv k). Qed.

(** set_slot *)
Lemma array_assign_nil_nth {A} (i j : nat) (v : option A) :
  nth_error (array_assign [] i v) j =
  if Nat.eqb j i then Some v else if Nat.ltb j i then Some None else None.
Proof.
  revert j. induction i as [|i IH]; intros [|j]; simpl; try reflexivity.
  - destruct j; reflexivity.
  - apply IH.
Qed.

Lemma array_assign_nth {A} (l : list (option A)) (i j : nat) (v : option A) :
  nth_error (array_assign l i v) j =
  if Nat.eqb j i then Some v
  else match nth_error l j with
       | Some x => Some x
       | None => if Nat.ltb j i then Some None else None
       end.
Proof.
  revert i j. induction l as [| x t IH]; intros i j.
  - rewrite array_assign_nil_nth. destruct j; reflexivity.
  - destruct i as [|i], j as [|j]; simpl; try reflexivity.
    + destruct (nth_error t j); reflexivity.
    + rewrite IH. reflexivity.
Qed.

Lemma array_assign_length {A} (l : list (option A)) (i : nat) (v : option A) :
  length (array_assign l i v) = Nat.max (length l) (S i).
Proof.
  revert i. induction l as [| x t IH]; intro i.
  - induction i as [|i IHi]; simpl; [reflexivity|]. simpl in IHi. rewrite IHi. reflexivity.
  - destruct i as [|i]; simpl; [lia|]. rewrite IH. reflexivity.
Qed.

(** X2. A [set_slot] packet stores the item at its slot and leaves the other
    slots and the selected slot as they were; past the end the slot list
    grows, the gap holding empty slots. *)
Theorem set_slot_stores (b : Bot) (i : nat) (it : option Item) :
  let l := slots (inventory b) in
  let l' := slots (inventory (handle (InSetSlot i it) b)) in
  nth_error l' i = Some it /\
  (forall j, j <> i -> (j < length l)%nat -> nth_error l' j = nth_error l j) /\
  (forall j, (length l <= j < i)%nat -> nth_error l' j = Some None) /\
  length l' = Nat.max (length l) (S i) /\
  selectedSlot (inventory (handle (InSetSlot i it) b)) = selectedSlot (inventory b).
Proof.
  intros l l'. unfold l'. simpl. fold l.
  split; [rewrite array_assign_nth, Nat.eqb_refl; reflexivity|].
  split; [|split; [|split; [apply array_assign_length | reflexivity]]].
  - intros j Hji Hj. rewrite array_assign_nth.
    apply Nat.eqb_neq in Hji. rewrite Hji.
    destruct (nth_error l j) eqn:E; [reflexivity|].
    apply nth_error_None in E. lia.
  - intros j Hj. rewrite array_assign_nth.
    destruct (Nat.eqb j i) eqn:E1; [apply Nat.eqb_eq in E1; lia|].
    destruct (nth_error l j) eqn:E2; [assert (Hne : nth_error l j <> None) by congruence; apply nth_error_Some in Hne; lia |].
    destruct (Nat.ltb j i) eqn:E3; [reflexivity|]. apply Nat.ltb_ge in E3. lia.
Qed.

(** X3. After [set_slot] puts an item in slot [i], [findItem] by that item's
    name finds an item of that name at slot [i] or earlier. *)
Theorem set_slot_then_findItem (b : Bot) (i : nat) (it : Item) :
  exists it' s,
    findItem (inventory (handle (InSetSlot i (Some it)) b)) (KName (item_name it)) = Some (it', s) /\
    (s <= i)%nat /\ item_name it' = item_name it.
Proof.
  set (inv := inventory (handle (InSetSlot i (Some it)) b)).
  assert (Hi : nth_error (slots inv) i = Some (Some it)).
  { unfold inv. simpl. rewrite array_assign_nth, Nat.eqb_refl. reflexivity. }
  assert (Hm : item_matches it (KName (item_name it)) = true) by apply String.eqb_refl.
  destruct (findItem_spec inv (KName (item_name it))) as [H1 H2].
  destruct (findItem inv (KName (item_name it))) as [[it' s]|] eqn:E.
  - destruct (proj1 (H1 it' s) eq_refl) as [_ [Hmt Hmin]].
    exists it', s. split; [reflexivity|]. split.
    + destruct (Nat.le_gt_cases s i) as [Hle | Hgt]; [exact Hle|].
      rewrite (Hmin i it Hgt Hi) in Hm. discriminate.
    + simpl in Hmt. apply String.eqb_eq in Hmt. exact Hmt.
  - rewrite (proj1 H2 eq_refl i it Hi) in Hm. discriminate.
Qed.

(** The entity_destroy handler *)
Lemma filter_filter' {A : Type} (f g : A -> bool) (l : list A) :
  filter f (filter g l) = filter (fun x => g x && f x) l.
Proof.
  induction l as [| x t IH]; simpl; [reflexivity|].
  destruct (g x); simpl; [destruct (f x); simpl|]; rewrite IH; reflexivity.
Qed.

Lemma filter_ext' {A : Type} (f g : A -> bool) (l : list A) :
  (forall x, f x = g x) -> filter f l = filter g l.
Proof. intro Hfg. induction l as [| x t IH]; simpl; [reflexivity|]. rewrite Hfg, IH. reflexivity. Qed.

Lemma filter_true' {A : Type} (l : list A) : filter (fun _ => true) l = l.
Proof. induction l as [| x t IH]; simpl; [reflexivity|]. rewrite IH. reflexivity. Qed.

Lemma on_entity_destroy_filter (ids : list Z) (t : TrackerS) :
  on_entity_destroy ids t =
  mkTracker (objects t)
    (filter (fun kv => negb (existsb (Z.eqb (fst kv)) ids)) (entities t))
    (filter (fun kv => negb (existsb (Z.eqb (fst kv)) ids)) (players t)).
Proof.
  unfold on_entity_destroy. revert t. induction ids as [| id ids IH]; intro t; simpl.
  - rewrite !filter_true'. destruct t; reflexivity.
  - rewrite IH. simpl. unfold map_delete. rewrite !filter_filter'.
    f_equal; apply filter_ext'; intros [k v]; simpl; rewrite negb_orb; reflexivity.
Qed.

(** X14. An [entity_destroy] packet removes exactly the listed ids from both
    [entities] and [players], keeps every other entry in order, and frees no
    object. *)
Theorem entity_destroy_removes_exactly (ids : list Z) (b : Bot) :
  let t := tracker (handle (InEntityDestroy ids) b) in
  entities t = filter (fun kv => negb (existsb (Z.eqb (fst kv)) ids)) (entities (tracker b)) /\
  players t = filter (fun kv => negb (existsb (Z.eqb (fst kv)) ids)) (players (tracker b)) /\
  objects t = objects (tracker b).
Proof. simpl. rewrite on_entity_destroy_filter. simpl. auto. Qed.

(** X13. A [spawn_player] packet stores one new object under the id in both
    [players] and [entities], so a metadata update through [entities] is
    seen on the player object. *)
Theorem spawn_player_one_object (b : Bot) (id : Z) (uuid name : string)
    (x y z yw ptch : number) (md : list Z) :
  let b1 := handle (InSpawnPlayer id uuid name x y z yw ptch) b in
  let r := length (objects (tracker b)) in
  map_get Z.eqb (entities (tracker b1)) id = Some r /\
  map_get Z.eqb (players (tracker b1)) id = Some r /\
  exists e, nth_error (objects (tracker (handle (InEntityMetadata id md) b1))) r = Some e /\
            ent_metadata e = Some md /\ ent_name e = Some name.
Proof.
  intros b1 r. unfold b1. simpl. unfold on_spawn_player. rewrite map_get_set_same_Z. simpl.
  rewrite !map_get_set_same_Z. split; [reflexivity|]. split; [reflexivity|].
  unfold updateMetadata. simpl. rewrite map_get_set_same_Z. simpl.
  rewrite nth_error_heap_update, Nat.eqb_refl.
  rewrite nth_error_app2; [|lia]. unfold r. rewrite Nat.sub_diag. simpl.
  eexists. split; [reflexivity|]. split; reflexivity.
Qed.

(** Maps with a decidable key equality *)
Section JsMapSpec.
Context {K V : Type} (keqb : K -> K -> bool).
Hypothesis keqb_spec : forall a c, keqb a c = true <-> a = c.

Lemma map_get_set_eq (m : jsmap K V) (k : K) (v : V) :
  map_get keqb (map_set keqb m k v) k = Some v.
Proof.
  induction m as [| [k0 v0] t IH]; simpl.
  - rewrite (proj2 (keqb_spec k k) eq_refl). reflexivity.
  - destruct (keqb k0 k) eqn:E; simpl; rewrite E; [reflexivity | exact IH].
Qed.

Lemma map_get_set_neq (m : jsmap K V) (k k' : K) (v : V) :
  k' <> k -> map_get keqb (map_set keqb m k v) k' = map_get keqb m k'.
Proof.
  intro Hne. induction m as [| [k0 v0] t IH]; simpl.
  - destruct (keqb k k') eqn:E; [|reflexivity].
    apply keqb_spec in E. congruence.
  - destruct (keqb k0 k) eqn:E; simpl.
    + apply keqb_spec in E. subst k0.
      destruct (keqb k k') eqn:E'; [apply keqb_spec in E'; congruence | reflexivity].
    + destruct (keqb k0 k'); [reflexivity | exact IH].
Qed.

Lemma map_get_In (m : jsmap K V) (k : K) (v : V) :
  map_get keqb m k = Some v -> In (k, v) m.
Proof.
  induction m as [| [k0 v0] t IH]; simpl; [discriminate|].
  destruct (keqb k0 k) eqn:E.
  - apply keqb_spec in E. subst. intro Heq. inversion Heq. auto.
  - auto.
Qed.

Lemma map_set_In (m : jsmap K V) (k k' : K) (v v' : V) :
  In (k', v') (map_set keqb m k v) -> In (k', v') m \/ (k' = k /\ v' = v).
Proof.
  induction m as [| [k0 v0] t IH]; simpl.
  - intros [Heq | []]. inversion Heq. auto.
  - destruct (keqb k0 k) eqn:E.
    + apply keqb_spec in E. subst k0. intros [Heq | Hin].
      * inversion Heq. auto.
      * auto.
    + intros [Heq | Hin]; [auto|]. destruct (IH Hin) as [H1 | H1]; auto.
Qed.
End JsMapSpec.

Lemma string_eqb_spec (a c : string) : String.eqb a c = true <-> a = c.
Proof. apply String.eqb_eq. Qed.

Section WorldFacts.
Context `{JsMath}.

(** X4. [getBlock] reads back what [setBlock] stored at the same coordinates,
    other keys keep their value, an empty world reads 0 (air), and after a
    [block_change] packet the location reads the packet's type. *)
Theorem getBlock_setBlock (p q : Vec3) (t : Z) (w : WorldS) (loc : BlockLoc) (b : Bot) :
  getBlock p (setBlock p t w) = t /\
  (block_key q <> block_key p -> getBlock q (setBlock p t w) = getBlock q w) /\
  getBlock q (mkWorld []) = 0 /\
  getBlock (loc_vec loc) (world (handle (InBlockChange loc t) b)) = t.
Proof.
  unfold getBlock, setBlock. simpl.
  rewrite (map_get_set_eq String.eqb string_eqb_spec). split; [reflexivity|].
  split; [intro Hne; rewrite (map_get_set_neq String.eqb string_eqb_spec); auto|].
  split; [reflexivity|].
  rewrite (map_get_set_eq String.eqb string_eqb_spec). reflexivity.
Qed.

(** X5. A position holding a non-air block is never walkable, and in a world
    with no known blocks no position is walkable. *)
Theorem isWalkable_blocked (p : Vec3) (t : Z) (w : WorldS) :
  t <> 0 ->
  isWalkable p (setBlock p t w) = false /\ isWalkable p (mkWorld []) = false.
Proof.
  intro Ht. unfold isWalkable. split.
  - replace (getBlock p (setBlock p t w)) with t.
    + apply Z.eqb_neq in Ht. rewrite Ht. reflexivity.
    + unfold getBlock, setBlock. simpl. rewrite (map_get_set_eq String.eqb string_eqb_spec). reflexivity.
  - reflexivity.
Qed.

End WorldFacts.

Lemma isWalkable_blocked_witness :
  3 <> 0 /\ isWalkable (loc_vec origin_loc) (setBlock (loc_vec origin_loc) 3 (mkWorld [])) = false.
Proof.
  split; [lia|]. exact (proj1 (isWalkable_blocked (loc_vec origin_loc) 3 (mkWorld []) ltac:(lia))).
Defined.

(** Physics *)
Section JumpFacts.
Context `{JsMath}.

Lemma physics_update_fields (b : Bot) :
  connected (agent (physics_update b)) = connected (agent b) /\
  jumpCooldown (physics (physics_update b)) =
  (if connected (agent b) then (if 0 <? jumpCooldown (physics b) then jumpCooldown (physics b) - 1
                                else jumpCooldown (physics b))
   else jumpCooldown (physics b)).
Proof.
  unfold physics_update. destruct (connected (agent b)) eqn:Ec; simpl; [|rewrite Ec; auto].
  split; [exact Ec | reflexivity].
Qed.

Lemma iter_physics_cooldown (n : nat) (b : Bot) :
  connected (agent b) = true -> 0 <= jumpCooldown (physics b) ->
  connected (agent (Nat.iter n physics_update b)) = true /\
  jumpCooldown (physics (Nat.iter n physics_update b)) = Z.max 0 (jumpCooldown (physics b) - Z.of_nat n).
Proof.
  intros Hc Hj. induction n as [| n [IHc IHj]]; simpl.
  - split; [exact Hc | lia].
  - destruct (physics_update_fields (Nat.iter n physics_update b)) as [Fc Fj].
    rewrite Fc, Fj, IHc, IHj. split; [reflexivity|].
    destruct (0 <? Z.max 0 (jumpCooldown (physics b) - Z.of_nat n)) eqn:E;
      [apply Z.ltb_lt in E | apply Z.ltb_ge in E]; lia.
Qed.

Lemma iter_physics_cooldown_pos (n : nat) (b : Bot) :
  0 <= jumpCooldown (physics b) ->
  (Z.of_nat n < jumpCooldown (physics b)) ->
  jumpCooldown (physics (Nat.iter n physics_update b)) <> 0.
Proof.
  intros Hj Hn. destruct (connected (agent b)) eqn:Hc.
  - rewrite (proj2 (iter_physics_cooldown n b Hc Hj)). lia.
  - assert (Hid : forall k, Nat.iter k physics_update b = b).
    { induction k as [|k IH]; simpl; [reflexivity|]. rewrite IH. unfold physics_update.
      rewrite Hc. reflexivity. }
    rewrite Hid. lia.
Qed.

(** X8. A jump from the ground with no cooldown sets the vertical velocity to
    0.42 and the cooldown to 10; further jumps do nothing for the next 9
    physics ticks, and after 10 ticks the cooldown is 0 again. *)
Theorem jump_cooldown_cycle (b : Bot) :
  connected (agent b) = true -> isOnGround b = true -> jumpCooldown (physics b) = 0 ->
  let b1 := jump b in
  vy (velocity (agent b1)) = jumpSpeed /\
  jumpCooldown (physics b1) = 10 /\
  (forall n, (n < 10)%nat -> jump (Nat.iter n physics_update b1) = Nat.iter n physics_update b1) /\
  jumpCooldown (physics (Nat.iter 10 physics_update b1)) = 0.
Proof.
  intros Hc Hg Hj b1.
  assert (Hb1 : b1 = with_physics (with_agent b (set_velocity (agent b)
                       (vec3 (vx (velocity (agent b))) jumpSpeed (vz (velocity (agent b)))))) (mkPhysics 10)).
  { unfold b1, jump. rewrite Hg, Hj. reflexivity. }
  assert (Hc1 : connected (agent b1) = true) by (rewrite Hb1; exact Hc).
  assert (Hj1 : jumpCooldown (physics b1) = 10) by (rewrite Hb1; reflexivity).
  split; [rewrite Hb1; reflexivity|]. split; [exact Hj1|]. split.
  - intros n Hn. unfold jump at 1.
    assert (Hne : jumpCooldown (physics (Nat.iter n physics_update b1)) <> 0).
    { apply iter_physics_cooldown_pos; lia. }
    apply Z.eqb_neq in Hne. rewrite Hne, andb_false_r. reflexivity.
  - rewrite (proj2 (iter_physics_cooldown 10 b1 Hc1 ltac:(lia))), Hj1. reflexivity.
Qed.

End JumpFacts.

Lemma jump_cooldown_cycle_witness :
  jumpCooldown (physics (Nat.iter 10 (@physics_update reduced_math) (@jump reduced_math standing_bot))) = 0.
Proof.
  exact (proj2 (proj2 (proj2 (@jump_cooldown_cycle reduced_math standing_bot
           ltac:(vm_compute; reflexivity) ltac:(vm_compute; reflexivity) ltac:(vm_compute; reflexivity))))).
Defined.

(** Combat *)
Section CombatFacts.
Context `{JsMath}.

Lemma combat_update_in_range (b : Bot) (tr : Ref) (te : Entity) :
  connected (agent b) = true -> target (combat b) = Some tr ->
  nth_error (objects (tracker b)) tr = Some te -> in_strike_range b = true ->
  combat_update b =
  if attackCooldown (combat b) =? 0 then with_combat (attack (ent_id te) b) (mkCombat (Some tr) 10)
  else with_combat b (mkCombat (Some tr) (attackCooldown (combat b) - 1)).
Proof.
  intros Hc Ht Hte Hr. unfold in_strike_range in Hr. rewrite Ht, Hte in Hr.
  unfold combat_update. rewrite Hc, Ht, Hte. cbv [negb].
  destruct (map_get Z.eqb (entities (tracker b)) (ent_id te)) as [r|]; [|discriminate].
  destruct (nth_error (objects (tracker b)) r) as [e|]; [|discriminate].
  apply negb_true_iff in Hr. cbv zeta. rewrite Hr. reflexivity.
Qed.

Lemma in_strike_range_view (b b' : Bot) :
  strike_view b = strike_view b' -> target (combat b) = target (combat b') ->
  in_strike_range b = in_strike_range b'.
Proof.
  unfold strike_view, in_strike_range. intros Hv Ht. inversion Hv as [[Hc Htr Hp]].
  rewrite Ht, Htr, Hp. reflexivity.
Qed.

Lemma combat_countdown (b : Bot) (tr : Ref) (te : Entity) (c : Z) (k : nat) :
  connected (agent b) = true -> target (combat b) = Some tr ->
  nth_error (objects (tracker b)) tr = Some te -> in_strike_range b = true ->
  (Z.of_nat k <= c) ->
  Nat.iter k combat_update (with_combat b (mkCombat (Some tr) c)) =
  with_combat b (mkCombat (Some tr) (c - Z.of_nat k)).
Proof.
  intros Hc Ht Hte Hr. induction k as [|k IH]; intro Hk.
  - simpl. rewrite Z.sub_0_r. reflexivity.
  - rewrite Nat.iter_succ, IH by lia.
    assert (Hr' : in_strike_range (with_combat b (mkCombat (Some tr) (c - Z.of_nat k))) = true).
    { rewrite <- Hr. apply in_strike_range_view; [reflexivity | simpl; congruence]. }
    rewrite (combat_update_in_range (with_combat b (mkCombat (Some tr) (c - Z.of_nat k))) tr te
               Hc eq_refl Hte Hr').
    simpl. destruct (c - Z.of_nat k =? 0) eqn:E; [apply Z.eqb_eq in E; lia|].
    unfold with_combat. simpl. f_equal. f_equal. lia.
Qed.

Lemma combat_eleven (b : Bot) (tr : Ref) (te : Entity) :
  connected (agent b) = true -> target (combat b) = Some tr ->
  nth_error (objects (tracker b)) tr = Some te -> in_strike_range b = true ->
  attackCooldown (combat b) = 0 ->
  (forall k, (k <= 10)%nat ->
     Nat.iter (S k) combat_update b =
     with_combat (write (PUseEntity (ent_id te) 1 0) b) (mkCombat (Some tr) (10 - Z.of_nat k))) /\
  Nat.iter 11 combat_update b = write (PUseEntity (ent_id te) 1 0) b.
Proof.
  intros Hc Ht Hte Hr Hcd.
  set (b1 := write (PUseEntity (ent_id te) 1 0) b).
  assert (Hfirst : combat_update b = with_combat b1 (mkCombat (Some tr) 10)).
  { rewrite (combat_update_in_range b tr te Hc Ht Hte Hr), Hcd. reflexivity. }
  assert (Hk : forall k, (k <= 10)%nat ->
     Nat.iter (S k) combat_update b = with_combat b1 (mkCombat (Some tr) (10 - Z.of_nat k))).
  { intros k Hk. rewrite Nat.iter_succ_r, Hfirst.
    assert (Hr1 : in_strike_range b1 = true).
    { rewrite <- Hr. apply in_strike_range_view; [reflexivity | reflexivity]. }
    apply (combat_countdown b1 tr te 10 k Hc Ht Hte Hr1). lia. }
  split; [exact Hk|].
  rewrite (Hk 10%nat ltac:(lia)). unfold b1, with_combat, write. simpl.
  destruct b as [a i w t p cr [tg cd] l o e]. simpl in *. subst. reflexivity.
Qed.

Lemma write_keeps_strike (b : Bot) (tr : Ref) (te : Entity) (pk : Packet) :
  connected (agent b) = true -> target (combat b) = Some tr ->
  nth_error (objects (tracker b)) tr = Some te -> in_strike_range b = true ->
  attackCooldown (combat b) = 0 ->
  connected (agent (write pk b)) = true /\ target (combat (write pk b)) = Some tr /\
  nth_error (objects (tracker (write pk b))) tr = Some te /\ in_strike_range (write pk b) = true /\
  attackCooldown (combat (write pk b)) = 0.
Proof.
  intros Hc Ht Hte Hr Hcd. repeat split; auto.
Qed.

(** X18. With a tracked target within reach and cooldown 0, combat ticks
    strike on the first tick and then once every 11 ticks: after n ticks
    exactly (n + 10) / 11 use_entity packets have been written. *)
Theorem combat_strike_cycle (b : Bot) (tr : Ref) (te : Entity) :
  connected (agent b) = true -> target (combat b) = Some tr ->
  nth_error (objects (tracker b)) tr = Some te -> in_strike_range b = true ->
  attackCooldown (combat b) = 0 ->
  (forall n, out (Nat.iter n combat_update b) =
             out b ++ repeat (PUseEntity (ent_id te) 1 0) ((n + 10) / 11)) /\
  Nat.iter 11 combat_update b = write (PUseEntity (ent_id te) 1 0) b.
Proof.
  intros Hc Ht Hte Hr Hcd. set (pk := PUseEntity (ent_id te) 1 0).
  split; [| exact (proj2 (combat_eleven b tr te Hc Ht Hte Hr Hcd))].
  assert (Hm : forall m b0, connected (agent b0) = true -> target (combat b0) = Some tr ->
     nth_error (objects (tracker b0)) tr = Some te -> in_strike_range b0 = true ->
     attackCooldown (combat b0) = 0 ->
     forall k, (k <= 10)%nat ->
     out (Nat.iter (m * 11 + k) combat_update b0) =
     out b0 ++ repeat pk (m + (k + 10) / 11)).
  { induction m as [|m IH]; intros b0 Hc0 Ht0 Hte0 Hr0 Hcd0 k Hk.
    - destruct k as [|k].
      + simpl. rewrite app_nil_r. reflexivity.
      + replace (0 * 11 + S k)%nat with (S k) by lia.
        replace (0 + (S k + 10) / 11)%nat with 1%nat
          by (rewrite Nat.add_0_l; apply (Nat.div_unique _ _ _ k); lia).
        rewrite (proj1 (combat_eleven b0 tr te Hc0 Ht0 Hte0 Hr0 Hcd0) k ltac:(lia)). reflexivity.
    - replace (S m * 11 + k)%nat with ((m * 11 + k) + 11)%nat by lia.
      rewrite Nat.iter_add, (proj2 (combat_eleven b0 tr te Hc0 Ht0 Hte0 Hr0 Hcd0)). fold pk.
      destruct (write_keeps_strike b0 tr te pk Hc0 Ht0 Hte0 Hr0 Hcd0) as [H1 [H2 [H3 [H4 H5]]]].
      rewrite (IH _ H1 H2 H3 H4 H5 k Hk). simpl. rewrite <- app_assoc. reflexivity. }
  intro n.
  assert (Hlt := Nat.mod_upper_bound n 11 ltac:(lia)).
  assert (Hn : n = (n / 11 * 11 + n mod 11)%nat) by (pose proof (Nat.div_mod_eq n 11); lia).
  replace (Nat.iter n combat_update b) with (Nat.iter (n / 11 * 11 + n mod 11)%nat combat_update b)
    by (rewrite <- Hn; reflexivity).
  rewrite (Hm (n / 11)%nat b Hc Ht Hte Hr Hcd (n mod 11)%nat ltac:(lia)). f_equal. f_equal.
  destruct (Nat.eq_dec (n mod 11) 0%nat) as [E0 | E0].
  - rewrite E0. replace ((0 + 10) / 11)%nat with 0%nat by reflexivity.
    rewrite Nat.add_0_r. apply (Nat.div_unique _ _ _ 10); lia.
  - replace ((n mod 11 + 10) / 11)%nat with 1%nat
      by (apply (Nat.div_unique _ _ _ (n mod 11 - 1)); lia).
    apply (Nat.div_unique _ _ _ (n mod 11 - 1)); lia.
Qed.

End CombatFacts.

Section CombatRange.
Context `{JsMath}.

(** X19. When the target is missing, untracked or farther than 3, a combat
    tick never strikes and never changes the attack cooldown; at most it
    writes one look packet. *)
Theorem combat_update_no_strike_out_of_range (b : Bot) :
  in_strike_range b = false ->
  attackCooldown (combat (combat_update b)) = attackCooldown (combat b) /\
  (out (combat_update b) = out b \/
   exists yw ptch og, out (combat_update b) = out b ++ [PLook yw ptch og]).
Proof.
  unfold in_strike_range, combat_update. intro Hr.
  destruct (connected (agent b)); cbv [negb]; [|auto].
  destruct (target (combat b)) as [tr|]; [|auto].
  destruct (nth_error (objects (tracker b)) tr) as [te|]; [|auto].
  destruct (map_get Z.eqb (entities (tracker b)) (ent_id te)) as [r|]; [|simpl; auto].
  destruct (nth_error (objects (tracker b)) r) as [e|]; [|auto].
  cbv zeta. destruct (num_gt (distanceTo (ent_position e) (position (agent b))) (Znum 3)).
  - simpl. split; [reflexivity|]. right. eauto.
  - discriminate.
Qed.

End CombatRange.

Lemma combat_strike_cycle_witness :
  Nat.iter 11 combat_update targeting_bot = write (PUseEntity 7 1 0) targeting_bot.
Proof.
  exact (proj2 (@combat_strike_cycle sample_math targeting_bot O
    (mkEntity 7 (Some "zombie"%string) None None (vec3 (Znum 0) (Znum 0) (Znum 0))
              (Some (vec3 (Znum 0) (Znum 0) (Znum 0))) (Znum 0) (Znum 0) None)
    ltac:(vm_compute; reflexivity) ltac:(vm_compute; reflexivity) ltac:(vm_compute; reflexivity)
    ltac:(vm_compute; reflexivity) ltac:(vm_compute; reflexivity))).
Defined.

Lemma combat_update_no_strike_out_of_range_witness :
  attackCooldown (combat (combat_update chasing_bot)) = attackCooldown (combat chasing_bot).
Proof.
  exact (proj1 (@combat_update_no_strike_out_of_range sample_math chasing_bot ltac:(vm_compute; reflexivity))).
Defined.

(** An entity moved by an [entity_move] packet *)
Lemma num_add_nan_r (x : number) : num_add x NaN = NaN.
Proof. destruct x as [q| |[]]; reflexivity. Qed.

Lemma distanceTo_nan `{JsMath} (here : Vec3) : distanceTo nan3 here = NaN.
Proof. unfold distanceTo, num_sub. simpl. rewrite !num_add_nan_r. reflexivity. Qed.

Section MovedEntity.
Context `{JsMath}.

Lemma handle_moved_inv (r : Ref) (p : Inbound) (b : Bot) : moved_inv r b -> moved_inv r (handle p b).
Proof.
  intros [e [He Hp]]. unfold moved_inv.
  destruct p; simpl; try (unfold on_health; destruct (num_le _ _)); simpl; try (exists e; auto; fail).
  - unfold updateMetadata. destruct (map_get _ _ _) as [r0|]; simpl; [|exists e; auto].
    rewrite nth_error_heap_update, He. destruct (Nat.eqb r r0); simpl; eexists; split; eauto.
  - exists e. split; [apply nth_error_app_old; exact He | exact Hp].
  - exists e. split; [apply nth_error_app_old; exact He | exact Hp].
  - rewrite (proj2 (proj2 (destroy_In entityIds (tracker b) 0 O))). exists e. auto.
  - unfold on_entity_move. destruct (map_get _ _ _) as [r0|]; simpl; [|exists e; auto].
    rewrite nth_error_heap_update, He. destruct (Nat.eqb r r0); simpl.
    + eexists; split; [reflexivity|]. simpl. rewrite !num_add_nan_r. reflexivity.
    + exists e. auto.
Qed.

Lemma run_moved_inv (r : Ref) (os : list Op) (b : Bot) : moved_inv r b -> moved_inv r (run os b).
Proof.
  revert b. induction os as [| o os IH]; intros b Hb; [exact Hb|].
  rewrite run_cons. apply IH. destruct o;
    try (unfold moved_inv; rewrite tracker_step_not_packet; [exact Hb | discriminate]).
  apply handle_moved_inv. exact Hb.
Qed.

Lemma move_makes_nan (os : list Op) (id : Z) (r : Ref) (dX dY dZ : number) :
  map_get Z.eqb (entities (tracker (run os initial_bot))) id = Some r ->
  exists e, nth_error (objects (tracker (handle (InEntityMove id dX dY dZ) (run os initial_bot)))) r = Some e /\
            ent_position e = nan3 /\ ent_id e = id /\
            map_get Z.eqb (entities (tracker (handle (InEntityMove id dX dY dZ) (run os initial_bot)))) id = Some r.
Proof.
  intro Hget. destruct (run_tracker_ok os id r (map_get_In_Z _ _ _ Hget)) as [e [He Hid]].
  simpl. unfold on_entity_move. rewrite Hget. simpl.
  rewrite nth_error_heap_update, Nat.eqb_refl, He. simpl.
  eexists. split; [reflexivity|]. split; [simpl; rewrite !num_add_nan_r; reflexivity|]. split; [exact Hid | exact Hget].
Qed.

(** X16. After an [entity_move] packet for a tracked id, the moved object's
    position is NaN in every coordinate, and from then on neither
    [findNearestEntity] nor [findNearestPlayer] ever returns it. *)
Theorem entity_move_never_found (os os' : list Op) (id : Z) (r : Ref) (dX dY dZ : number) :
  map_get Z.eqb (entities (tracker (run os initial_bot))) id = Some r ->
  let b' := run os' (handle (InEntityMove id dX dY dZ) (run os initial_bot)) in
  (exists e, nth_error (objects (tracker b')) r = Some e /\ ent_position e = vec3 NaN NaN NaN) /\
  (forall type maxDistance, findNearestEntity type maxDistance b' <> Some r) /\
  (forall maxDistance, findNearestPlayer maxDistance b' <> Some r).
Proof.
  intros Hget b'.
  assert (Hinv : moved_inv r b').
  { apply run_moved_inv. destruct (move_makes_nan os id r dX dY dZ Hget) as [e [He [Hp _]]].
    exists e. auto. }
  destruct Hinv as [e [He Hp]].
  split; [exists e; auto|]. split.
  - intros type md Hf. rewrite findNearestEntity_keep in Hf.
    apply keep_nearest_some in Hf. destruct Hf as [_ [d [Hc [Hlt _]]]].
    unfold entity_cand in Hc. rewrite He, Hp in Hc.
    destruct (includes _ _); [|discriminate]. inversion Hc; subst d.
    rewrite distanceTo_nan in Hlt. discriminate.
  - intros md Hf. rewrite findNearestPlayer_keep in Hf.
    apply keep_nearest_some in Hf. destruct Hf as [_ [d [Hc [Hlt _]]]].
    unfold player_cand in Hc. rewrite He, Hp in Hc. inversion Hc; subst d.
    rewrite distanceTo_nan in Hlt. discriminate.
Qed.

(** X17. Once the combat target has been moved by an [entity_move] packet,
    at any later point where its id still maps to that object (no spawn has
    reused the id), a combat tick with cooldown 0 strikes it (use_entity
    packet, cooldown 10) wherever it really is, since its NaN distance is
    never above 3. *)
Theorem moved_target_struck_at_any_distance (os os' : list Op) (id : Z) (r : Ref)
    (dX dY dZ : number) :
  map_get Z.eqb (entities (tracker (run os initial_bot))) id = Some r ->
  let s := run os' (handle (InEntityMove id dX dY dZ) (run os initial_bot)) in
  map_get Z.eqb (entities (tracker s)) id = Some r ->
  connected (agent s) = true -> target (combat s) = Some r -> attackCooldown (combat s) = 0 ->
  combat_update s = with_combat (attack id s) (mkCombat (Some r) 10).
Proof.
  intros Hget s Hget' Hc Ht Hcd.
  assert (Hinv : moved_inv r s).
  { apply run_moved_inv. destruct (move_makes_nan os id r dX dY dZ Hget) as [e [He [Hp _]]].
    exists e. auto. }
  destruct Hinv as [e [He Hp]].
  assert (Hid : ent_id e = id).
  { assert (Es : s = run (os ++ OpPacket (InEntityMove id dX dY dZ) :: os') initial_bot)
      by (unfold s, run; rewrite fold_left_app; reflexivity).
    pose proof (run_tracker_ok (os ++ OpPacket (InEntityMove id dX dY dZ) :: os')) as Hok.
    rewrite <- Es in Hok. destruct (Hok id r (map_get_In_Z _ _ _ Hget')) as [e' [He' Hid']].
    congruence. }
  assert (Hr : in_strike_range s = true).
  { unfold in_strike_range. rewrite Ht, He, Hid, Hget', He, Hp, distanceTo_nan. reflexivity. }
  rewrite (combat_update_in_range s r e Hc Ht He Hr), Hcd, Hid. reflexivity.
Qed.

End MovedEntity.

Lemma entity_move_never_found_witness :
  findNearestEntity (OneType "zombie") (Infinity true)
    (handle (InEntityMove 7 (Znum 32) (Znum 0) (Znum 0)) (run zombie_far_ops initial_bot)) <> Some O.
Proof.
  exact (proj1 (proj2 (@entity_move_never_found sample_math zombie_far_ops [] 7 O (Znum 32) (Znum 0) (Znum 0)
           ltac:(vm_compute; reflexivity))) (OneType "zombie") (Infinity true)).
Defined.

(** The far zombie is moved, then a physics tick passes. *)
Lemma moved_target_struck_at_any_distance_witness :
  let s := run [OpPhysicsUpdate]
             (handle (InEntityMove 7 (Znum 32) (Znum 0) (Znum 0)) (run zombie_far_ops initial_bot)) in
  out (combat_update s) = out s ++ [PUseEntity 7 1 0].
Proof.
  cbv zeta.
  rewrite (@moved_target_struck_at_any_distance sample_math zombie_far_ops [OpPhysicsUpdate] 7 O
             (Znum 32) (Znum 0) (Znum 0)
             ltac:(vm_compute; reflexivity) ltac:(vm_compute; reflexivity)
             ltac:(vm_compute; reflexivity) ltac:(vm_compute; reflexivity)
             ltac:(vm_compute; reflexivity)).
  vm_compute. reflexivity.
Defined.

(** mineBlock and the timer *)
Section MiningTimer.
Context `{JsMath}.

Lemma out_fold_write_eq (l : list (Z * Packet)) (b : Bot) :
  out (fold_left (fun b t => write (snd t) b) l b) = out b ++ map snd l.
Proof.
  revert b. induction l as [| t l IH]; intro b; simpl; [rewrite app_nil_r; reflexivity|].
  rewrite IH. simpl. rewrite <- app_assoc. reflexivity.
Qed.

(** X22. [mineBlock] writes the start-dig packet at once and queues the
    finish-dig packet for 1000 ms later: if less time passes, it is still
    queued; once 1000 ms or more have passed, it has left the queue and been
    written after the start-dig packet. *)
Theorem mineBlock_finish_dig_timing (pid : nat) (loc : BlockLoc) (ms : N) (b : Bot) :
  out (mineBlock pid loc b) = out b ++ [PBlockDig 0 loc 1] /\
  (Z.of_N ms < 1000 ->
   In (clock (loop b) + 1000, PBlockDig 2 loc 1) (timers (loop (advance ms (mineBlock pid loc b))))) /\
  (1000 <= Z.of_N ms ->
   ~ In (clock (loop b) + 1000, PBlockDig 2 loc 1) (timers (loop (advance ms (mineBlock pid loc b)))) /\
   exists l, out (advance ms (mineBlock pid loc b)) = out b ++ PBlockDig 0 loc 1 :: l /\
             In (PBlockDig 2 loc 1) l).
Proof.
  split; [reflexivity|].
  unfold advance. rewrite loop_fold_write, out_fold_write_eq. unfold mineBlock, getDigTime. simpl.
  split.
  - intro Hms. apply filter_In. split; [apply in_or_app; right; left; reflexivity|].
    simpl. apply negb_true_iff. apply Z.leb_gt. lia.
  - intro Hms. split.
    + intro Hin. apply filter_In in Hin. destruct Hin as [_ Hf]. simpl in Hf.
      apply negb_true_iff, Z.leb_gt in Hf. lia.
    + eexists. split; [rewrite <- app_assoc; reflexivity|].
      apply in_map_iff. exists (clock (loop b) + 1000, PBlockDig 2 loc 1). split; [reflexivity|].
      apply filter_In. split; [apply in_or_app; right; left; reflexivity|].
      simpl. apply Z.leb_le. lia.
Qed.

End MiningTimer.

(** Crafting a stick *)
Section CraftStick.
Context `{JsMath}.

Lemma craft_stick_clicks (count : number) (b : Bot) (it : Item) (s : nat) :
  findItem (inventory b) (KName "planks") = Some (it, s) ->
  num_lt (Znum (item_count it)) (num_mul (Znum 2) count) = false ->
  craft "stick" count b =
  (Resolved, write (PWindowClick 0 0 0 1 0 None) (write (PWindowClick 0 (Z.of_nat s) 0 0 0 (Some it)) b)).
Proof.
  intros Hf Hc. unfold craft.
  change (map_get String.eqb recipes "stick"%string) with (Some (mkRecipe [mkIngredient "planks" 2] "stick" 4 false)).
  cbn [missing_ingredient ingredients ing_item ing_count requiresCraftingTable andb].
  rewrite Hf, Hc. unfold craft_clicks.
  cbn [place_ingredients ingredients ing_item requiresCraftingTable].
  rewrite Hf. reflexivity.
Qed.

(** X23. [craft('stick', c)] checks only the first planks stack that
    [findItem] finds, whatever later stacks hold: with at least 2c items
    there it resolves after two window clicks (the planks slot, action 0,
    then the result slot 0, action 1, in window 0); with fewer it rejects
    with "Missing ingredient: planks" and changes nothing. *)
Theorem craft_stick_success (c : Z) (b : Bot) (it : Item) (s : nat) :
  findItem (inventory b) (KName "planks") = Some (it, s) ->
  (2 * c <= item_count it ->
   craft "stick" (Znum c) b =
   (Resolved, write (PWindowClick 0 0 0 1 0 None) (write (PWindowClick 0 (Z.of_nat s) 0 0 0 (Some it)) b))) /\
  (item_count it < 2 * c ->
   craft "stick" (Znum c) b = (Rejected "Missing ingredient: planks", b)).
Proof.
  intro Hf. split.
  - intro Hc. apply craft_stick_clicks; [exact Hf|].
    simpl. unfold Qlt_bool. apply negb_false_iff. apply Qle_bool_iff.
    rewrite <- inject_Z_mult. apply Qle_bool_iff. unfold Qle_bool. simpl.
    rewrite !Z.mul_1_r. apply Z.leb_le. exact Hc.
  - intro Hc. unfold craft.
    change (map_get String.eqb recipes "stick"%string) with (Some (mkRecipe [mkIngredient "planks" 2] "stick" 4 false)).
    cbn [missing_ingredient ingredients ing_item ing_count requiresCraftingTable andb].
    rewrite Hf.
    replace (num_lt (Znum (item_count it)) (num_mul (Znum 2) (Znum c))) with true; [reflexivity|].
    symmetry. simpl. unfold Qlt_bool. apply negb_true_iff.
    rewrite <- inject_Z_mult. unfold Qle_bool. simpl.
    rewrite !Z.mul_1_r. apply Z.leb_gt. exact Hc.
Qed.

(** X24. [craft('stick', NaN)] passes the ingredient check whenever some
    planks are present, whatever their count, and writes the same two
    window clicks. *)
Theorem craft_stick_nan_count (b : Bot) (it : Item) (s : nat) :
  findItem (inventory b) (KName "planks") = Some (it, s) ->
  craft "stick" NaN b =
  (Resolved, write (PWindowClick 0 0 0 1 0 None) (write (PWindowClick 0 (Z.of_nat s) 0 0 0 (Some it)) b)).
Proof. intro Hf. apply craft_stick_clicks; [exact Hf | reflexivity]. Qed.

End CraftStick.

(** One plank in slot 1, four in slot 3: the first stack decides. *)
Lemma craft_stick_success_witness :
  let b := run [OpPacket (InSetSlot 1 (Some (mkItem 5 "planks" 1)));
                OpPacket (InSetSlot 3 (Some (mkItem 5 "planks" 4)))] initial_bot in
  craft "stick" (Znum 2) b = (Rejected "Missing ingredient: planks", b).
Proof.
  intro b.
  exact (proj2 (craft_stick_success 2 b (mkItem 5 "planks" 1) 1 ltac:(vm_compute; reflexivity))
           ltac:(simpl; lia)).
Defined.

Lemma craft_stick_nan_count_witness :
  craft "stick" NaN planks_bot =
  (Resolved, write (PWindowClick 0 0 0 1 0 None) (write (PWindowClick 0 3 0 0 0 (Some (mkItem 5 "planks" 4))) planks_bot)).
Proof. exact (craft_stick_nan_count planks_bot (mkItem 5 "planks" 4) 3 ltac:(vm_compute; reflexivity)). Defined.

Section MoreFacts.
Context `{JsMath}.

(** X21. After [stop], combat ticks change nothing, however many run. *)
Theorem stop_silences_combat (b : Bot) (n : nat) :
  Nat.iter n combat_update (stop b) = stop b.
Proof.
  induction n as [|n IH]; [reflexivity|]. rewrite Nat.iter_succ, IH.
  unfold combat_update. simpl. destruct (connected (agent b)); reflexivity.
Qed.

(** X25. [craft] of any item other than 'stick' is rejected with
    'Unknown recipe: ' followed by the name, and changes nothing. *)
Theorem craft_unknown_recipe (itemName : string) (count : number) (b : Bot) :
  itemName <> "stick"%string ->
  craft itemName count b = (Rejected ("Unknown recipe: " ++ itemName), b).
Proof.
  intro Hn. unfold craft, recipes. cbn [map_get].
  destruct (String.eqb "stick" itemName) eqn:E; [apply String.eqb_eq in E; congruence | reflexivity].
Qed.

(** X26. [selectSlot(NaN)] passes the range check, selects NaN and writes a
    held_item_slot packet with it; [selectSlot] of either infinity throws. *)
Theorem selectSlot_non_finite (b : Bot) :
  selectSlot NaN b =
    (Returned, write (PHeldItemSlot NaN) (with_inventory b (mkInventory (slots (inventory b)) NaN))) /\
  forall sgn, selectSlot (Infinity sgn) b = (Threw "Hotbar slots must be between 0 and 8", b).
Proof. split; [reflexivity | intros []; reflexivity]. Qed.

Lemma isOnGround_no_blocks (b : Bot) : blocks (world b) = [] -> isOnGround b = false.
Proof. intro Hb. unfold isOnGround, getBlock. rewrite Hb. reflexivity. Qed.

Lemma physics_update_airborne (b : Bot) :
  connected (agent b) = true -> blocks (world b) = [] ->
  exists x y z, out (physics_update b) = out b ++ [PPosition x y z false].
Proof.
  intros Hc Hb. pose proof (isOnGround_no_blocks b Hb) as G.
  unfold physics_update. rewrite Hc, G. cbn -[isOnGround num_add].
  eexists _, _, _. unfold sendPositionUpdate. cbn -[isOnGround num_add].
  rewrite isOnGround_no_blocks by exact Hb. reflexivity.
Qed.

Lemma physics_update_keeps (b : Bot) :
  connected (agent (physics_update b)) = connected (agent b) /\ world (physics_update b) = world b.
Proof.
  unfold physics_update. destruct (connected (agent b)) eqn:Hc; [|auto].
  simpl. rewrite Hc. auto.
Qed.

(** X7. A connected bot in a world with no known block never counts as on
    the ground: every physics tick writes exactly one position packet, always
    with [onGround] false. *)
Theorem never_on_ground_without_blocks (b : Bot) (n : nat) :
  connected (agent b) = true -> blocks (world b) = [] ->
  exists ps,
    out (Nat.iter n physics_update b) = out b ++ ps /\ length ps = n /\
    Forall (fun p => exists x y z, p = PPosition x y z false) ps.
Proof.
  intros Hc Hb.
  assert (Hk : forall m, connected (agent (Nat.iter m physics_update b)) = true /\
                         blocks (world (Nat.iter m physics_update b)) = []).
  { induction m as [|m IH]; [auto|]. rewrite Nat.iter_succ.
    destruct (physics_update_keeps (Nat.iter m physics_update b)) as [E1 E2].
    rewrite E1, E2. exact IH. }
  induction n as [|n IH].
  - exists []. simpl. rewrite app_nil_r. repeat split; auto.
  - destruct IH as (ps & Ho & Hl & Hf).
    destruct (Hk n) as [Hcn Hbn].
    destruct (physics_update_airborne _ Hcn Hbn) as (x & y & z & Ho1).
    exists (ps ++ [PPosition x y z false]).
    rewrite Nat.iter_succ.
    split; [rewrite Ho1, Ho, app_assoc; reflexivity|].
    split; [rewrite length_app, Hl; simpl; lia|].
    apply Forall_app; split; [exact Hf|]. constructor; [eauto|constructor].
Qed.

(** X20. [attackNearestEntity] changes nothing when [findNearestEntity] finds
    nothing; otherwise it targets the found object, keeps the cooldown, and
    writes one look packet then one use_entity packet with the object's id. *)
Theorem attackNearestEntity_outcome (type : TypeArg) (maxDistance : number) (b : Bot) :
  (findNearestEntity type maxDistance b = None -> attackNearestEntity type maxDistance b = b) /\
  (forall r, findNearestEntity type maxDistance b = Some r ->
     exists e yw ptch,
       nth_error (objects (tracker b)) r = Some e /\
       target (combat (attackNearestEntity type maxDistance b)) = Some r /\
       attackCooldown (combat (attackNearestEntity type maxDistance b)) = attackCooldown (combat b) /\
       out (attackNearestEntity type maxDistance b) =
         out b ++ [PLook yw ptch (onGround (agent b)); PUseEntity (ent_id e) 1 0]).
Proof.
  unfold attackNearestEntity. split.
  - intro Hn. rewrite Hn. reflexivity.
  - intros r Hr. rewrite Hr. rewrite findNearestEntity_keep in Hr.
    apply keep_nearest_some in Hr. destruct Hr as [_ [d [Hc _]]].
    unfold entity_cand in Hc. destruct (nth_error _ r) as [e|] eqn:He; [|discriminate].
    unfold attackEntity. rewrite He.
    eexists e, _, _. split; [reflexivity|]. split; [reflexivity|]. split; [reflexivity|].
    simpl. rewrite <- app_assoc. reflexivity.
Qed.

End MoreFacts.

Lemma heap_update_keeps (P : Entity -> Prop) (objs : list Entity) (r i : Ref) (f : Entity -> Entity) (e : Entity) :
  (forall x, P x -> P (f x)) -> nth_error objs i = Some e -> P e ->
  exists e', nth_error (heap_update objs r f) i = Some e' /\ P e'.
Proof.
  intros Hf He Hp. rewrite nth_error_heap_update, He.
  destruct (Nat.eqb i r); simpl; eauto.
Qed.

Section Players.
Context `{JsMath}.

Lemma handle_players_ok (p : Inbound) (b : Bot) :
  players_ok (tracker b) -> players_ok (tracker (handle p b)).
Proof.
  intro Hok. destruct p; simpl; try (unfold on_health; destruct (num_le _ _)); simpl; try exact Hok.
  - unfold updateMetadata. destruct (map_get _ _ _) as [r0|]; [|exact Hok].
    intros k r Hin. destruct (Hok k r Hin) as (e & u & n & He & Hk & Hu & Hn).
    destruct (heap_update_keeps
                (fun x => ent_id x = k /\ ent_uuid x = Some u /\ ent_name x = Some n)
                (objects (tracker b)) r0 r (set_ent_metadata metadata) e)
      as (e' & He' & Hk' & Hu' & Hn'); [intros x (?&?&?); simpl; auto | exact He | auto |].
    exists e', u, n. auto.
  - unfold on_spawn_entity. intros k r Hin. simpl in Hin.
    destruct (Hok k r Hin) as (e & u & n & He & Hk & Hu & Hn).
    exists e, u, n. simpl. split; [apply nth_error_app_old; exact He | auto].
  - unfold on_spawn_player. rewrite map_get_set_same_Z. intros k r Hin. simpl in Hin.
    apply map_set_In_Z in Hin. destruct Hin as [Hin | [-> ->]].
    + destruct (Hok k r Hin) as (e & u & n & He & Hk & Hu & Hn).
      exists e, u, n. simpl. split; [apply nth_error_app_old; exact He | auto].
    + eexists _, uuid, name. simpl. rewrite nth_error_app2; [|lia].
      rewrite Nat.sub_diag. simpl. repeat split; reflexivity.
  - intros k r Hin. destruct (destroy_In entityIds (tracker b) k r) as [_ [Hp Ho]].
    rewrite Ho. apply Hok. apply Hp. exact Hin.
  - unfold on_entity_move. destruct (map_get _ _ _) as [r0|]; [|exact Hok].
    intros k r Hin. destruct (Hok k r Hin) as (e & u & n & He & Hk & Hu & Hn).
    destruct (heap_update_keeps
                (fun x => ent_id x = k /\ ent_uuid x = Some u /\ ent_name x = Some n)
                (objects (tracker b)) r0 r
                (fun e => set_ent_position (add (ent_position e)
                   (ArgNumbers (num_mul dX (Num (1 # 32))) (num_mul dY (Num (1 # 32)))
                               (num_mul dZ (Num (1 # 32))))) e) e)
      as (e' & He' & Hk' & Hu' & Hn'); [intros x (?&?&?); simpl; auto | exact He | auto |].
    exists e', u, n. auto.
Qed.

Lemma run_players_ok (os : list Op) : players_ok (tracker (run os initial_bot)).
Proof.
  assert (Hinit : players_ok (tracker initial_bot)) by (intros k r []).
  revert Hinit. generalize initial_bot.
  induction os as [| o os IH]; intros b Hb; [exact Hb|].
  rewrite run_cons. apply IH.
  destruct o; try (rewrite tracker_step_not_packet; [exact Hb | discriminate]).
  apply handle_players_ok. exact Hb.
Qed.

(** X15. In every run, each [entities] entry refers to an existing object
    whose id is the key, and each [players] entry refers to an existing
    object whose id is the key and which has a uuid and a name. *)
Theorem tracked_maps_consistent (os : list Op) :
  let t := tracker (run os initial_bot) in
  (forall k r, In (k, r) (entities t) ->
     exists e, nth_error (objects t) r = Some e /\ ent_id e = k) /\
  (forall k r, In (k, r) (players t) ->
     exists e u n, nth_error (objects t) r = Some e /\ ent_id e = k /\
                   ent_uuid e = Some u /\ ent_name e = Some n).
Proof. split; [apply run_tracker_ok | apply run_players_ok]. Qed.

End Players.

Lemma craft_unknown_recipe_witness :
  "diamond"%string <> "stick"%string /\
  craft "diamond" (Znum 1) initial_bot = (Rejected ("Unknown recipe: " ++ "diamond"), initial_bot).
Proof.
  split; [discriminate | apply (@craft_unknown_recipe sample_math); discriminate].
Defined.

Lemma never_on_ground_without_blocks_witness :
  let b := run [OpPacket InConnect] initial_bot in
  connected (agent b) = true /\ blocks (world b) = [] /\
  exists ps,
    out (Nat.iter 3 physics_update b) = out b ++ ps /\ length ps = 3%nat /\
    Forall (fun p => exists x y z, p = PPosition x y z false) ps.
Proof.
  intro b. split; [reflexivity|]. split; [reflexivity|].
  apply (@never_on_ground_without_blocks sample_math); reflexivity.
Defined.

Lemma findNearestEntity_nearest_witness :
  findNearestEntity (OneType "zombie") (Znum 16) targeting_bot = Some O /\
  exists k e,
    In (k, O) (entities (tracker targeting_bot)) /\
    nth_error (objects (tracker targeting_bot)) O = Some e /\
    includes (type_list (OneType "zombie")) (ent_type e) = true /\
    num_lt (distanceTo (ent_position e) (position (agent targeting_bot))) (Znum 16) = true /\
    (forall k' r' e', In (k', r') (entities (tracker targeting_bot)) ->
       nth_error (objects (tracker targeting_bot)) r' = Some e' ->
       includes (type_list (OneType "zombie")) (ent_type e') = true ->
       num_lt (distanceTo (ent_position e') (position (agent targeting_bot)))
              (distanceTo (ent_position e) (position (agent targeting_bot))) = false).
Proof.
  assert (Hf : findNearestEntity (OneType "zombie") (Znum 16) targeting_bot = Some O)
    by (vm_compute; reflexivity).
  split; [exact Hf | apply (@findNearestEntity_nearest sample_math); exact Hf].
Defined.

Lemma findNearestPlayer_nearest_witness :
  findNearestPlayer (Infinity true) player_nearby_bot = Some O /\
  exists k e,
    In (k, O) (players (tracker player_nearby_bot)) /\
    nth_error (objects (tracker player_nearby_bot)) O = Some e /\
    num_lt (distanceTo (ent_position e) (position (agent player_nearby_bot))) (Infinity true) = true /\
    (forall k' r' e', In (k', r') (players (tracker player_nearby_bot)) ->
       nth_error (objects (tracker player_nearby_bot)) r' = Some e' ->
       num_lt (distanceTo (ent_position e') (position (agent player_nearby_bot)))
              (distanceTo (ent_position e) (position (agent player_nearby_bot))) = false).
Proof.
  assert (Hf : findNearestPlayer (Infinity true) player_nearby_bot = Some O)
    by (vm_compute; reflexivity).
  split; [exact Hf | apply (@findNearestPlayer_nearest sample_math); exact Hf].
Defined.
